(** * MCServerJS: a shallow embedding of the server supervisor

    The development follows the TypeScript sources of the package:
    - [src/shared.ts]            ([ServerStatus], [IServerLog], [ServerStateError]);
    - [src/properties.ts]        (class [Properties]);
    - [src/versions.ts]          (class [Versions]);
    - [src/servers/server.ts]    (class [Server]).

    JavaScript strings are sequences of UTF-16 code units and are modelled as
    [list N].  The regular expressions of the sources are written in a small
    first-order syntax and run by a backtracking matcher that tries the
    alternatives in the order of the ECMAScript semantics (greedy quantifiers
    first give as much as they can and then back off). *)

From Stdlib Require Import NArith ZArith List String Ascii Bool DecimalString.
From stdpp Require Import base list gmap.
Import ListNotations.

Local Open Scope N_scope.

(** ** JavaScript strings and regular expressions *)

Module JS.

Abbreviation jsstring := (list N).

(** A string literal of the source, as code units. *)
Definition str (s : string) : jsstring :=
  List.map N_of_ascii (list_ascii_of_string s).

Definition LF : N := 10.
Definition CR : N := 13.

(** [Canonicalize] of the [i] flag (no [u] flag): upper-casing, where a code
    unit outside ASCII never becomes an ASCII one. Every letter written in
    the patterns of the sources is ASCII, so only ASCII letters are mapped. *)
Definition canon (x : N) : N :=
  if (97 <=? x) && (x <=? 122) then x - 32 else x.

(** [String.prototype.toLocaleLowerCase] on the ASCII letters (the state
    names are ASCII; the host locale is taken to map [A-Z] to [a-z]). *)
Definition lower (x : N) : N :=
  if (65 <=? x) && (x <=? 90) then x + 32 else x.

Definition toLocaleLowerCase (s : jsstring) : jsstring := List.map lower s.

(** Character classes. *)
Inductive cls : Type :=
| CChar (c : N)      (* a literal character *)
| CCharI (c : N)     (* a literal character under the [i] flag *)
| CNotChar (c : N)   (* [[^c]] *)
| CDigit             (* [\d] *)
| CSpace             (* [\s] *)
| CDot.              (* [.] : anything but a line terminator *)

Definition is_line_terminator (x : N) : bool :=
  (x =? 10) || (x =? 13) || (x =? 8232) || (x =? 8233).

Definition is_white_space (x : N) : bool :=
  (x =? 9) || (x =? 10) || (x =? 11) || (x =? 12) || (x =? 13) || (x =? 32)
  || (x =? 160) || (x =? 5760) || ((8192 <=? x) && (x <=? 8202))
  || (x =? 8232) || (x =? 8233) || (x =? 8239) || (x =? 8287)
  || (x =? 12288) || (x =? 65279).

Definition cls_mem (c : cls) (x : N) : bool :=
  match c with
  | CChar a => x =? a
  | CCharI a => canon x =? canon a
  | CNotChar a => negb (x =? a)
  | CDigit => (48 <=? x) && (x <=? 57)
  | CSpace => is_white_space x
  | CDot => negb (is_line_terminator x)
  end.

Inductive quant : Type := One | Opt | Star | Plus.

(** The atoms of a pattern, in sequence. *)
Inductive atom : Type :=
| Cls (c : cls) (q : quant)        (* a class with its quantifier *)
| Alt (alts : list (list cls))     (* [(a|b)] over literal alternatives *)
| NotAhead (c : cls)               (* [(?!c)] *)
| Eoi.                             (* [$] without the [m] flag *)

(** A pattern; [bol] says that it starts with [^]. *)
Record regex : Type := { bol : bool; atoms : list atom }.

Definition lit (s : string) : list atom :=
  List.map (fun x => Cls (CChar x) One) (str s).
Definition lit_i (s : string) : list atom :=
  List.map (fun x => Cls (CCharI x) One) (str s).
Definition word (s : string) : list cls := List.map CChar (str s).
Definition word_i (s : string) : list cls := List.map CCharI (str s).

(** What a match produces: the text each atom consumed, and the input left. *)
Definition outcome : Type := (list jsstring * jsstring)%type.

Definition push (seg : jsstring) (r : outcome) : outcome :=
  (seg :: fst r, snd r).

Definition or_else {A} (a b : option A) : option A :=
  match a with Some x => Some x | None => b end.

(** A greedy run of [c]: first the longer runs, then the continuation here. *)
Fixpoint many (c : cls) (k : jsstring -> option outcome) (s : jsstring)
  : option (jsstring * outcome) :=
  or_else
    match s with
    | x :: s' =>
        if cls_mem c x
        then match many c k s' with
             | Some (seg, r) => Some (x :: seg, r)
             | None => None
             end
        else None
    | [] => None
    end
    match k s with Some r => Some ([], r) | None => None end.

(** One literal alternative. *)
Fixpoint word_match (w : list cls) (s : jsstring) : option (jsstring * jsstring) :=
  match w with
  | [] => Some ([], s)
  | c :: w' =>
      match s with
      | x :: s' =>
          if cls_mem c x
          then match word_match w' s' with
               | Some (m, r) => Some (x :: m, r)
               | None => None
               end
          else None
      | [] => None
      end
  end.

Fixpoint alt_try (alts : list (list cls)) (k : jsstring -> option outcome)
  (s : jsstring) : option outcome :=
  match alts with
  | [] => None
  | w :: rest =>
      or_else
        match word_match w s with
        | Some (m, s') => option_map (push m) (k s')
        | None => None
        end
        (alt_try rest k s)
  end.

Definition one (c : cls) (k : jsstring -> option outcome) (s : jsstring)
  : option outcome :=
  match s with
  | x :: s' => if cls_mem c x then option_map (push [x]) (k s') else None
  | [] => None
  end.

(** The matcher at one start position. *)
Fixpoint exec (p : list atom) (s : jsstring) {struct p} : option outcome :=
  match p with
  | [] => Some ([], s)
  | a :: p' =>
      match a with
      | Cls c One => one c (exec p') s
      | Cls c Opt => or_else (one c (exec p') s) (option_map (push []) (exec p' s))
      | Cls c Star =>
          match many c (exec p') s with
          | Some (seg, r) => Some (push seg r)
          | None => None
          end
      | Cls c Plus =>
          match s with
          | x :: s' =>
              if cls_mem c x
              then match many c (exec p') s' with
                   | Some (seg, r) => Some (push (x :: seg) r)
                   | None => None
                   end
              else None
          | [] => None
          end
      | Alt alts => alt_try alts (exec p') s
      | NotAhead c =>
          match s with
          | x :: _ => if cls_mem c x then None else option_map (push []) (exec p' s)
          | [] => option_map (push []) (exec p' s)
          end
      | Eoi =>
          match s with
          | [] => option_map (push []) (exec p' s)
          | _ :: _ => None
          end
      end
  end.

(** The leftmost start position that matches. *)
Fixpoint search (p : list atom) (s : jsstring) : option outcome :=
  or_else (exec p s)
    match s with
    | [] => None
    | _ :: s' => search p s'
    end.

(** [String.prototype.match] for a pattern without the [g] flag: the
    texts of the atoms of the first match. *)
Definition rmatch (r : regex) (s : jsstring) : option (list jsstring) :=
  option_map fst (if bol r then exec (atoms r) s else search (atoms r) s).

(** [RegExp.prototype.test] for a pattern without the [g] flag. *)
Definition test (r : regex) (s : jsstring) : bool :=
  match rmatch r s with Some _ => true | None => false end.

(** [String.prototype.replace] with a pattern that has the [g] flag: the
    matches are found left to right and do not overlap; [skip] counts the
    characters of the current match that are still to be passed over (the
    match is the concatenation of the texts of its atoms). After an empty
    match the next character is copied and the search goes on behind it. *)
Fixpoint replace_go (p : list atom) (repl : list jsstring -> jsstring)
  (skip : nat) (s : jsstring) : jsstring :=
  match s with
  | [] =>
      match skip with
      | O => match exec p [] with Some (segs, _) => repl segs | None => [] end
      | S _ => []
      end
  | x :: s' =>
      match skip with
      | S n => replace_go p repl n s'
      | O =>
          match exec p s with
          | Some (segs, _) =>
              repl segs ++
              match length (concat segs) with
              | O => x :: replace_go p repl 0 s'
              | S m => replace_go p repl m s'
              end
          | None => x :: replace_go p repl 0 s'
          end
      end
  end.

Definition replace_all (r : regex) (repl : list jsstring -> jsstring)
  (s : jsstring) : jsstring :=
  replace_go (atoms r) repl 0 s.

(** [String.prototype.split] with a one-character separator. *)
Fixpoint split (sep : N) (s : jsstring) : list jsstring :=
  match s with
  | [] => [[]]
  | x :: s' =>
      if x =? sep then [] :: split sep s'
      else match split sep s' with
           | l :: ls => (x :: l) :: ls
           | [] => [[x]]
           end
  end.

(** [Array.prototype.join]. *)
Fixpoint join (sep : jsstring) (ls : list jsstring) : jsstring :=
  match ls with
  | [] => []
  | [l] => l
  | l :: ls' => l ++ sep ++ join sep ls'
  end.

(** Truthiness of a string: [!!m]. *)
Definition truthy (s : jsstring) : bool :=
  match s with [] => false | _ :: _ => true end.

(** [`${n}`] for an integer. *)
Definition of_Z (z : Z) : jsstring := str (NilZero.string_of_int (Z.to_int z)).

(** [String.prototype.replace] with a pattern that is a string, or a
    regular expression without the [g] flag: the first match only. *)
Fixpoint replace_first (p : list atom) (repl : list jsstring -> jsstring)
  (s : jsstring) : jsstring :=
  match exec p s with
  | Some (segs, rest) => repl segs ++ rest
  | None =>
      match s with
      | [] => []
      | x :: s' => x :: replace_first p repl s'
      end
  end.

(** *** Vocabulary of the statements *)

(** All characters of a text are in a class. *)
Definition all_in (c : cls) (s : jsstring) : Prop :=
  Forall (fun x => cls_mem c x = true) s.

(** After no longer run of [c] at the head of [rest] does [k] succeed. *)
Definition longest (c : cls) (k : jsstring -> option outcome) (rest : jsstring) : Prop :=
  forall seg' rest', seg' <> [] -> rest = seg' ++ rest' -> all_in c seg' -> k rest' = None.

(** A text occurs in another. *)
Definition contains (needle hay : jsstring) : Prop :=
  exists pre post, hay = pre ++ needle ++ post.

End JS.

(** ** [src/shared.ts] *)

Module Shared.
Import JS.

Inductive LogType : Type := ERROR | WARN | INFO.

Record IServerLog : Type := { type : LogType; content : jsstring }.

Inductive ServerStatus : Type := STOPPED | CRASHED | STARTING | RUNNING | STOPPING.

(** The string a [ServerStatus] is at run time. *)
Definition status_text (s : ServerStatus) : jsstring :=
  match s with
  | STOPPED => str "STOPPED"
  | CRASHED => str "CRASHED"
  | STARTING => str "STARTING"
  | RUNNING => str "RUNNING"
  | STOPPING => str "STOPPING"
  end.

(** Thrown values: [ServerStateError] and any other [Error]. *)
Inductive error : Type :=
| ServerStateError (state : ServerStatus)
| Error (message : jsstring).

(** [err.message]; for [ServerStateError] it is what the constructor
    passes to [super]. *)
Definition message (e : error) : jsstring :=
  match e with
  | ServerStateError state =>
      str "Illegal Action: The server is currently "
        ++ toLocaleLowerCase (status_text state) ++ str "."
  | Error m => m
  end.

(** The files of the host, by path. *)
Abbreviation FS := (gmap (list N) (list N)).

(** [readFile(path, 'utf-8')]: rejects when there is no such file. *)
Definition readFile (fs : FS) (path : jsstring) : error + jsstring :=
  match fs !! path with
  | Some content => inr content
  | None =>
      inl (Error (str "ENOENT: no such file or directory, open '" ++ path ++ str "'"))
  end.

(** [writeFile(path, content, 'utf-8')]. *)
Definition writeFile (fs : FS) (path content : jsstring) : FS :=
  <[path := content]> fs.

Definition existsSync (fs : FS) (path : jsstring) : bool :=
  match fs !! path with Some _ => true | None => false end.

End Shared.

(** ** [src/properties.ts] *)

Module Properties.
Import JS Shared.

Record IProperty : Type := { name : jsstring; value : jsstring }.

(** [type PropertyData = IProperty | null | string] *)
Inductive PropertyData : Type :=
| PObject (p : IProperty)
| PNull
| PString (s : jsstring).

(** [PropertyPattern], token by token (the group 2 is a greedy run of [.]
    that may be empty):
<<
      ^   \s*   (?!#)   (.+)   =   ( .* )   $        flags: i
>>
    The [i] flag changes nothing, the pattern has no letter. The atoms are
    numbered from 0, so that group 1 is the text of atom 2 and group 2 the
    text of atom 4. *)
Definition key_value : list atom :=
  [Cls CDot Plus; Cls (CChar 61) One; Cls CDot Star; Eoi].

Definition unindented : list atom := NotAhead (CChar 35) :: key_value.

Definition PropertyPattern : regex :=
  {| bol := true; atoms := Cls CSpace Star :: unindented |}.

(** [CommentPattern]: [^#.+$] with the flag [i]. *)
Definition CommentPattern : regex :=
  {| bol := true; atoms := [Cls (CChar 35) One; Cls CDot Plus; Eoi] |}.

(** The pattern of line ends in [loadProperties]: [\r?\n], flags [gm]. *)
Definition NewlinePattern : regex :=
  {| bol := false; atoms := [Cls (CChar CR) Opt; Cls (CChar LF) One] |}.

(** The fields of a [Properties] object. *)
Record t : Type := { path : jsstring; data : list PropertyData }.

(** [new Properties(path)] *)
Definition new (path : jsstring) : t := {| path := path; data := [] |}.

(** The callback of [data.map] in [loadProperties]. *)
Definition load_line (line : jsstring) : PropertyData :=
  if test CommentPattern line then PString line
  else match rmatch PropertyPattern line with
       | Some m => PObject {| name := nth 2 m []; value := nth 4 m [] |}
       | None => PNull
       end.

(** [content.replace(NewlinePattern, '\n')] *)
Definition normalize_newlines (content : jsstring) : jsstring :=
  replace_all NewlinePattern (fun _ => [LF]) content.

Definition loadProperties (fs : FS) (this : t) : t * (error + unit) :=
  match readFile fs (path this) with
  | inl err => (this, inl err)
  | inr content =>
      let data := split LF (normalize_newlines content) in
      ({| path := path this; data := List.map load_line data |}, inr tt)
  end.

(** The type guard [line !== null && typeof line !== 'string']. *)
Fixpoint only_properties (data : list PropertyData) : list IProperty :=
  match data with
  | [] => []
  | PObject p :: rest => p :: only_properties rest
  | _ :: rest => only_properties rest
  end.

Definition getProperties (fs : FS) (this : t) : t * (error + list IProperty) :=
  if (length (data this) =? 0)%nat && existsSync fs (path this)
  then match loadProperties fs this with
       | (this', inl err) => (this', inl err)
       | (this', inr _) => (this', inr (only_properties (data this')))
       end
  else (this, inr (only_properties (data this))).

Definition find_by_name (n : jsstring) (properties : list IProperty) : option IProperty :=
  List.find (fun prop => bool_decide (name prop = n)) properties.

Definition getProperty (fs : FS) (this : t) (n : jsstring)
  : t * (error + option IProperty) :=
  match getProperties fs this with
  | (this', inl err) => (this', inl err)
  | (this', inr properties) => (this', inr (find_by_name n properties))
  end.

(** The callback of the first [map] of [setProperties]: a line that is
    [null] or a string stays; an object is replaced by the first input
    pair of its name, if there is one. *)
Definition set_line (properties : list IProperty) (line : PropertyData) : PropertyData :=
  match line with
  | PObject l =>
      match find_by_name (name l) properties with
      | Some prop => PObject prop
      | None => line
      end
  | _ => line
  end.

(** The callback of the second [map]: the text of a line in the file. *)
Definition render_line (line : PropertyData) : jsstring :=
  match line with
  | PNull => []
  | PObject l => name l ++ str "=" ++ value l
  | PString s => s
  end.

Section WithEOL.
(** [os.EOL] *)
Variable EOL : jsstring.

Definition setProperties (properties : list IProperty) (fs : FS) (this : t)
  : FS * t * list IProperty :=
  let newData := List.map (set_line properties) (data this) in
  let content := join EOL (List.map render_line newData) in
  let fs' := writeFile fs (path this) content in
  (fs', {| path := path this; data := newData |}, only_properties newData).

Definition setProperty (n v : jsstring) (fs : FS) (this : t)
  : FS * t * option IProperty :=
  let '(fs', this', properties) :=
    setProperties [{| name := n; value := v |}] fs this in
  (fs', this', find_by_name n properties).
End WithEOL.

(** *** Vocabulary of the statements *)

(** The host's [EOL] is a line feed, or a carriage return and a line feed. *)
Definition is_EOL (EOL : jsstring) : Prop := EOL = [LF] \/ EOL = [CR; LF].

(** A text without carriage return and line feed. *)
Definition clean (s : jsstring) : Prop := Forall (fun x => x <> LF /\ x <> CR) s.

(** The three outcomes of [load_line]. *)
Inductive loaded (line : jsstring) : PropertyData -> Prop :=
| loaded_comment t :
    line = 35 :: t -> t <> [] -> all_in CDot t -> loaded line (PString line)
| loaded_property w n v :
    line = w ++ n ++ 61 :: v -> all_in CSpace w -> n <> [] ->
    head n <> Some 35 -> all_in CDot n -> all_in CDot v ->
    load_line (n ++ 61 :: v) = PObject {| name := n; value := v |} ->
    loaded line (PObject {| name := n; value := v |})
| loaded_null : loaded line PNull.

(** The lines that [setProperties] writes back as they were read: the
    empty line, a comment of at least one character after the hash, and a
    name and a value around an equals sign where the name starts at the
    first column. *)
Definition comment_line (l : jsstring) : Prop :=
  exists t, l = 35 :: t /\ t <> [] /\ all_in CDot t.

Definition key_value_line (l : jsstring) : Prop :=
  exists x n v,
    l = (x :: n) ++ 61 :: v /\ is_white_space x = false /\ x <> 35
    /\ all_in CDot (x :: n) /\ all_in CDot v.

Definition plain_line (l : jsstring) : Prop :=
  l = [] \/ comment_line l \/ key_value_line l.

(** The split that the specification describes: the name is the text
    before the first equals sign and the value the text after it. *)
Fixpoint before_first_equals (line : jsstring) : jsstring :=
  match line with
  | [] => []
  | x :: rest => if x =? 61 then [] else x :: before_first_equals rest
  end.

Fixpoint after_first_equals (line : jsstring) : jsstring :=
  match line with
  | [] => []
  | x :: rest => if x =? 61 then rest else after_first_equals rest
  end.

Definition first_equals_split (line : jsstring) : PropertyData :=
  PObject {| name := before_first_equals line; value := after_first_equals line |}.

(** The three kinds of line. *)
Inductive Variant : Type := KeyValue | Blank | Comment.

Definition variant (line : PropertyData) : Variant :=
  match line with
  | PObject _ => KeyValue
  | PNull => Blank
  | PString _ => Comment
  end.

(** What [setProperties] does to one line. *)
Definition updated (properties : list IProperty) (line line' : PropertyData) : Prop :=
  variant line' = variant line
  /\ match line with
     | PObject l =>
         exists l', line' = PObject l' /\ name l' = name l
           /\ match find_by_name (name l) properties with
              | Some prop => l' = prop
              | None => l' = l
              end
     | _ => line' = line
     end.

End Properties.

(** ** [src/versions.ts] *)

Module Versions.
Import JS Shared.

Inductive VersionType : Type := release | snapshot | old_beta | old_alpha.

#[global] Instance VersionType_eq_dec : EqDecision VersionType.
Proof. solve_decision. Defined.

Record IVersionDownload : Type :=
  { d_sha1 : jsstring; d_size : N; d_url : jsstring }.

(** [IVersion.downloads] *)
Record Downloads : Type :=
  { client : IVersionDownload;
    client_mappings : option IVersionDownload;
    server : option IVersionDownload;
    server_mappings : option IVersionDownload;
    windows_server : option IVersionDownload }.

(** The metadata of one version, as [request<IVersion>(info.url)] resolves
    to it; the fields that [Versions] never reads are left out. *)
Record IVersion : Type := { v_id : jsstring; downloads : Downloads }.

Record IVersionInfo : Type :=
  { id : jsstring;
    type : VersionType;
    url : jsstring;
    time : jsstring;
    releaseTime : jsstring;
    sha1 : jsstring;
    complianceLevel : N }.

Record Latest : Type := { latest_release : jsstring; latest_snapshot : jsstring }.

Record IVersionManifest : Type :=
  { latest : Latest; versions : list IVersionInfo }.

(** A value of the record [#versions]. *)
Record Facts : Type :=
  { hasClientMappings : bool; hasServer : bool; hasServerMappings : bool }.

(** A promise is known by the rank of the request that made it. *)
Abbreviation Promise := nat.

(** The static fields of the class, the requests sent so far, the
    promises that have settled, and the parsed content of
    [./versions.json]. A version id is taken not to be the name of a
    member of [Object.prototype], so that the record [#versions] is a
    finite map. *)
Record World : Type :=
  { manifest_ : option Promise;
    versions_ : option (gmap (list N) Facts);
    requests : list jsstring;
    settled : list Promise;
    versions_json : option (gmap (list N) Facts) }.

Definition manifest_url : jsstring :=
  str "https://piston-meta.mojang.com/mc/game/version_manifest_v2.json".

(** [request(url)], up to the promise it returns. *)
Definition request_ (u : jsstring) (w : World) : Promise * World :=
  (length (requests w),
   {| manifest_ := manifest_ w; versions_ := versions_ w;
      requests := requests w ++ [u]; settled := settled w;
      versions_json := versions_json w |}).

(** [static get manifest()]: a promise is an object, hence truthy. *)
Definition manifest (w : World) : Promise * World :=
  match manifest_ w with
  | Some p => (p, w)
  | None =>
      let '(p, w') := request_ manifest_url w in
      (p, {| manifest_ := Some p; versions_ := versions_ w';
             requests := requests w'; settled := settled w';
             versions_json := versions_json w' |})
  end.

(** What the event loop does to the class between two turns of the
    program: the program reads the getter, or a promise settles. *)
Inductive event : Type :=
| GetManifest
| Settle (p : Promise).

Definition step (e : event) (w : World) : list Promise * World :=
  match e with
  | GetManifest => let '(p, w') := manifest w in ([p], w')
  | Settle p =>
      ([], {| manifest_ := manifest_ w; versions_ := versions_ w;
              requests := requests w; settled := p :: settled w;
              versions_json := versions_json w |})
  end.

(** The promises that the reads of a run return, and the world after it. *)
Fixpoint run (evs : list event) (w : World) : list Promise * World :=
  match evs with
  | [] => ([], w)
  | e :: evs' =>
      let '(ps, w1) := step e w in
      let '(qs, w2) := run evs' w1 in
      (ps ++ qs, w2)
  end.

(** [private static async load()] *)
Definition load (w : World) : gmap (list N) Facts :=
  match versions_json w with
  | None => ∅
  | Some data => data
  end.

Definition set_versions (vd : gmap (list N) Facts) (save : bool) (w : World) : World :=
  {| manifest_ := manifest_ w; versions_ := Some vd;
     requests := requests w; settled := settled w;
     versions_json := if save then Some vd else versions_json w |}.

Definition log_requests (us : list jsstring) (w : World) : World :=
  {| manifest_ := manifest_ w; versions_ := versions_ w;
     requests := requests w ++ us; settled := settled w;
     versions_json := versions_json w |}.

(** The class before any use. *)
Definition init : World :=
  {| manifest_ := None; versions_ := None; requests := []; settled := [];
     versions_json := None |}.

(** The record written for a fetched version. *)
Definition facts_of (version : IVersion) : Facts :=
  {| hasClientMappings := bool_decide (is_Some (client_mappings (downloads version)));
     hasServer := bool_decide (is_Some (server (downloads version)));
     hasServerMappings := bool_decide (is_Some (server_mappings (downloads version))) |}.

(** Among promises that each settle at the given time with the given
    outcome, the rejection that comes first in time; of two at the same
    time, the one listed first. *)
Fixpoint first_rejected {A} (rs : list (nat * (error + A))) : option (nat * error) :=
  match rs with
  | [] => None
  | (t, inl e) :: rs' =>
      match first_rejected rs' with
      | Some (t', e') => if (t' <? t)%nat then Some (t', e') else Some (t, e)
      | None => Some (t, e)
      end
  | (_, inr _) :: rs' => first_rejected rs'
  end.

(** The values of the promises that are fulfilled, in order. *)
Fixpoint fulfilled {A} (rs : list (nat * (error + A))) : list A :=
  match rs with
  | [] => []
  | (_, inr a) :: rs' => a :: fulfilled rs'
  | (_, inl _) :: rs' => fulfilled rs'
  end.

(** [Promise.all]: the values in order, or the rejection of the promise
    that is rejected first. *)
Definition all {A} (rs : list (nat * (error + A))) : error + list A :=
  match first_rejected rs with
  | Some (_, e) => inl e
  | None => inr (fulfilled rs)
  end.

(** The record at the start of [getVersionData]: [#versions], loaded
    from the file if it is not set. *)
Definition cache_of (w : World) : gmap (list N) Facts :=
  match versions_ w with
  | Some vd => vd
  | None => load w
  end.

(** The callback of [versions.forEach], over the fetched versions. *)
Definition store (fetched : list IVersion) (vd : gmap (list N) Facts)
  : gmap (list N) Facts :=
  fold_left (fun vd version => <[v_id version := facts_of version]> vd) fetched vd.

Section WithNetwork.
(** What the upstream answers to [request<IVersion>(url)]. *)
Variable respond : jsstring -> error + IVersion.
(** The time at which the promise of that request settles. *)
Variable settles : jsstring -> nat.

(** [private static async getVersionData(manifest)] *)
Definition getVersionData (m : IVersionManifest) (w : World)
  : World * (error + gmap (list N) Facts) :=
  let versionData := cache_of w in
  let w := set_versions versionData false w in
  let filteredInfo :=
    List.filter (fun info => bool_decide (versionData !! id info = None)) (versions m) in
  match filteredInfo with
  | [] => (w, inr versionData)
  | _ :: _ =>
      let w := log_requests (List.map url filteredInfo) w in
      match all (List.map (fun info => (settles (url info), respond (url info)))
                   filteredInfo) with
      | inl e => (w, inl e)
      | inr fetched =>
          let versionData := store fetched versionData in
          (set_versions versionData true w, inr versionData)
      end
  end.

(** [manifest.versions.filter(info => versionData[info.id].f)]: reading
    a field of [undefined] throws a [TypeError]. *)
Fixpoint filter_by (f : Facts -> bool) (field : string)
  (versionData : gmap (list N) Facts) (infos : list IVersionInfo)
  : error + list IVersionInfo :=
  match infos with
  | [] => inr []
  | info :: rest =>
      match versionData !! id info with
      | None =>
          inl (Error (str "Cannot read properties of undefined (reading '"
                        ++ str field ++ str "')"))
      | Some facts =>
          match filter_by f field versionData rest with
          | inl e => inl e
          | inr l => inr (if f facts then info :: l else l)
          end
      end
  end.

(** [versions.find(v => v.type === t)?.id || ''] *)
Definition first_of (t : VersionType) (vs : list IVersionInfo) : jsstring :=
  match List.find (fun v => bool_decide (type v = t)) vs with
  | Some v => if truthy (id v) then id v else []
  | None => []
  end.

(** The body shared by the three getters, on the manifest that
    [this.manifest] resolves to. *)
Definition view (f : Facts -> bool) (field : string) (m : IVersionManifest)
  (w : World) : World * (error + IVersionManifest) :=
  match getVersionData m w with
  | (w', inl e) => (w', inl e)
  | (w', inr versionData) =>
      match filter_by f field versionData (versions m) with
      | inl e => (w', inl e)
      | inr vs =>
          (w', inr {| latest := {| latest_release := first_of release vs;
                                   latest_snapshot := first_of snapshot vs |};
                      versions := vs |})
      end
  end.

(** [static get servers()] *)
Definition servers := view hasServer "hasServer".
(** [static get serverMappings()] *)
Definition serverMappings := view hasServerMappings "hasServerMappings".
(** [static get clientMappings()] *)
Definition clientMappings := view hasClientMappings "hasClientMappings".
End WithNetwork.

(** *** Vocabulary of the statements *)

(** The flag that a view reads for an entry of the manifest. *)
Definition flag (f : Facts -> bool) (vd : gmap (list N) Facts) (info : IVersionInfo) : bool :=
  match vd !! id info with
  | Some facts => f facts
  | None => false
  end.

End Versions.

(** ** [src/servers/server.ts] *)

Module Server.
Import JS Shared.

(** A child process, as far as the server uses it: what was written to
    its standard input. *)
Record ChildProcess : Type := { stdin : list jsstring }.

(** The events of [ServerEvents]. *)
Inductive ServerEvent : Type :=
| EStateUpdate (state : ServerStatus)
| EMessage (log : IServerLog)
| EEula
| EDownload (file : jsstring) (current total : N).

(** The fields of a [Server]; [emitted] lists what [emit] has sent, oldest
    first (listeners are outside the class and do not call back into it),
    and [loading] counts the calls of [properties.loadProperties()] whose
    promise has not settled. *)
Record t : Type :=
  { version : option jsstring;
    minMemory : N;
    softMaxMemory : N;
    maxMemory : N;
    javaPath : jsstring;
    path : jsstring;
    state : ServerStatus;
    logs : list IServerLog;
    properties : Properties.t;
    process : option ChildProcess;
    emitted : list ServerEvent;
    loading : nat }.

Definition with_version (v : option jsstring) (sv : t) : t :=
  {| version := v; minMemory := minMemory sv; softMaxMemory := softMaxMemory sv;
     maxMemory := maxMemory sv; javaPath := javaPath sv; path := path sv;
     state := state sv; logs := logs sv; properties := properties sv;
     process := process sv; emitted := emitted sv; loading := loading sv |}.

Definition with_state (s : ServerStatus) (sv : t) : t :=
  {| version := version sv; minMemory := minMemory sv; softMaxMemory := softMaxMemory sv;
     maxMemory := maxMemory sv; javaPath := javaPath sv; path := path sv;
     state := s; logs := logs sv; properties := properties sv;
     process := process sv; emitted := emitted sv; loading := loading sv |}.

Definition with_logs (l : list IServerLog) (sv : t) : t :=
  {| version := version sv; minMemory := minMemory sv; softMaxMemory := softMaxMemory sv;
     maxMemory := maxMemory sv; javaPath := javaPath sv; path := path sv;
     state := state sv; logs := l; properties := properties sv;
     process := process sv; emitted := emitted sv; loading := loading sv |}.

Definition with_properties (p : Properties.t) (sv : t) : t :=
  {| version := version sv; minMemory := minMemory sv; softMaxMemory := softMaxMemory sv;
     maxMemory := maxMemory sv; javaPath := javaPath sv; path := path sv;
     state := state sv; logs := logs sv; properties := p;
     process := process sv; emitted := emitted sv; loading := loading sv |}.

Definition with_process (p : option ChildProcess) (sv : t) : t :=
  {| version := version sv; minMemory := minMemory sv; softMaxMemory := softMaxMemory sv;
     maxMemory := maxMemory sv; javaPath := javaPath sv; path := path sv;
     state := state sv; logs := logs sv; properties := properties sv;
     process := p; emitted := emitted sv; loading := loading sv |}.

Definition with_loading (n : nat) (sv : t) : t :=
  {| version := version sv; minMemory := minMemory sv; softMaxMemory := softMaxMemory sv;
     maxMemory := maxMemory sv; javaPath := javaPath sv; path := path sv;
     state := state sv; logs := logs sv; properties := properties sv;
     process := process sv; emitted := emitted sv; loading := n |}.

(** [this.emit(event, ...)] *)
Definition emit (e : ServerEvent) (sv : t) : t :=
  {| version := version sv; minMemory := minMemory sv; softMaxMemory := softMaxMemory sv;
     maxMemory := maxMemory sv; javaPath := javaPath sv; path := path sv;
     state := state sv; logs := logs sv; properties := properties sv;
     process := process sv; emitted := emitted sv ++ [e]; loading := loading sv |}.

(** ["[\d+:\d+:\d+] [(ServerMain|Server thread)/"], the start of every
    pattern of a line of the server; [w] and [l] build the literal parts
    with or without the [i] flag. *)
Definition line_head (w : string -> list cls) (l : string -> list atom) : list atom :=
  l "["%string ++ [Cls CDigit Plus] ++ l ":"%string ++ [Cls CDigit Plus]
    ++ l ":"%string ++ [Cls CDigit Plus] ++ l "] ["%string
    ++ [Alt [w "ServerMain"%string; w "Server thread"%string]] ++ l "/"%string.

(** [PrefixPattern], flag [g]. *)
Definition PrefixPattern : regex :=
  {| bol := false; atoms := line_head word lit |}.

(** [DonePattern], flag [i]: the head, then "INFO\]: Done \([^)]+\)!". *)
Definition DonePattern : regex :=
  {| bol := false;
     atoms := line_head word_i lit_i ++ lit_i "INFO]: Done ("
                ++ [Cls (CNotChar 41) Plus] ++ lit_i ")!" |}.

(** [StopPattern], flag [i]. *)
Definition StopPattern : regex :=
  {| bol := false;
     atoms := line_head word_i lit_i ++ lit_i "INFO]: Stopping server" |}.

(** [EulaPattern], flag [i]. The dot of "eula.txt" is not escaped in the
    source and stands for any character; the optional line end that closes
    the pattern is the alternation of a line feed, a carriage return and
    line feed, and nothing, in that order. *)
Definition EulaPattern : regex :=
  {| bol := false;
     atoms := line_head word_i lit_i
                ++ lit_i "INFO]: You need to agree to the EULA in order to run the server. Go to eula"
                ++ [Cls CDot One] ++ lit_i "txt for more info."
                ++ [Alt [[CChar LF]; [CChar CR; CChar LF]; []]] |}.

(** [WarnPattern] and [ErrorPattern], flag [i]. *)
Definition WarnPattern : regex := {| bol := false; atoms := lit_i "/WARN]" |}.
Definition ErrorPattern : regex := {| bol := false; atoms := lit_i "/ERROR]" |}.

(** The pattern of [acceptEula]: "eula=(true|false)", flags [gim]. *)
Definition EulaLinePattern : regex :=
  {| bol := false; atoms := lit_i "eula=" ++ [Alt [word_i "true"; word_i "false"]] |}.

(** [`${accept}`] *)
Definition bool_text (b : bool) : jsstring := if b then str "true" else str "false".

(** [`eula=${accept}`] *)
Definition eula_line (accept : bool) : jsstring := str "eula=" ++ bool_text accept.

(** [get canStart()] and [get canStop()] *)
Definition canStart (sv : t) : bool :=
  match state sv with
  | STOPPED | CRASHED => true
  | _ => false
  end.

Definition canStop (sv : t) : bool :=
  match state sv with
  | RUNNING => true
  | _ => false
  end.

(** [set state(state)] *)
Definition set_state (s : ServerStatus) (sv : t) : t :=
  let sv := with_state s sv in
  emit (EStateUpdate (state sv)) sv.

(** Methods that may throw: the server after the call, and the thrown
    value or the result. *)
Definition M (A : Type) : Type := t -> t * (error + A).

Definition ret {A} (a : A) : M A := fun sv => (sv, inr a).
Definition throw {A} (e : error) : M A := fun sv => (sv, inl e).
Definition bind {A B} (c : M A) (k : A -> M B) : M B :=
  fun sv =>
    match c sv with
    | (sv', inl e) => (sv', inl e)
    | (sv', inr a) => k a sv'
    end.
Definition effect (f : t -> t) : M unit := fun sv => (f sv, inr tt).
(** [await] of something that rejects with [e] or is fulfilled. *)
Definition settle (o : option error) : M unit :=
  match o with Some e => throw e | None => ret tt end.
(** [try { c } catch (err) { h err; throw err }] *)
Definition rethrowing {A} (c : M A) (h : error -> t -> t) : M A :=
  fun sv =>
    match c sv with
    | (sv', inl e) => (h e sv', inl e)
    | r => r
    end.
Definition when (b : bool) (c : M unit) : M unit := if b then c else ret tt.

Notation "x <- c ;; k" := (bind c (fun x => k))
  (at level 90, c at next level, right associativity).
Notation "c ;;; k" := (bind c (fun _ => k))
  (at level 90, right associativity).

(** The outcomes of what [start] awaits outside the class. *)
Record StartIO : Type :=
  { (* [existsSync(path)] *)
    path_exists : bool;
    (* [await mkdir(path, { recursive: true })]: the rejection, if any *)
    mkdir_ : option error;
    (* [await this.validateVersion()], from [this.version]: the version
       after the call, and the rejection or the answer *)
    validateVersion_ : option jsstring -> option jsstring * (error + bool);
    (* [await this.buildJar(true, cb)], from [this.version]: the version
       after the call, the calls of [cb], and the rejection, if any *)
    buildJar_ : option jsstring -> option jsstring * list (N * N) * option error;
    (* [spawn('java', args, ...)] *)
    spawn_ : error + ChildProcess }.

Section WithHost.
(** The clock: the text of [new Date().toLocaleTimeString(...)] when the
    log of the given rank is written. *)
Variable clock : nat -> jsstring.
(** [path.join] *)
Variable path_join : jsstring -> jsstring -> jsstring.
(** [os.EOL] *)
Variable EOL : jsstring.

Definition jar (sv : t) : jsstring := path_join (path sv) (str "server.jar").
Definition info (sv : t) : jsstring := path_join (path sv) (str "version.json").
Definition eula (sv : t) : jsstring := path_join (path sv) (str "eula.txt").
Definition prop (sv : t) : jsstring := path_join (path sv) (str "server.properties").

(** The text of a log: with [prefix], the time and the name of the
    package come first. *)
Definition stamp (prefix : bool) (sv : t) (message : jsstring) : jsstring :=
  if prefix
  then str "[" ++ clock (length (logs sv)) ++ str "] [MCServerJS] " ++ message
  else message.

(** The body shared by [error], [warn] and [log]. *)
Definition write_log (ty : LogType) (message : jsstring) (prefix : bool) (sv : t) : t :=
  let message := stamp prefix sv message in
  let log := {| content := message; type := ty |} in
  let sv := emit (EMessage log) sv in
  with_logs (logs sv ++ [log]) sv.

Definition error_ := write_log ERROR.
Definition warn := write_log WARN.
Definition log := write_log INFO.

(** [this.process?.stdin?.write(chunk)] *)
Definition write_stdin (chunk : jsstring) (sv : t) : t :=
  match process sv with
  | Some p => with_process (Some {| stdin := stdin p ++ [chunk] |}) sv
  | None => sv
  end.

(** The listener of ['error'] on the child process. *)
Definition on_error (err_message : jsstring) (sv : t) : t :=
  let sv := error_ (str "Failed to start the server. " ++ err_message) true sv in
  set_state CRASHED sv.

(** The body of [messages.forEach] in the listener of [stdout]. *)
Definition on_message (message : jsstring) (sv : t) : t :=
  let sv :=
    if test WarnPattern message then warn message false sv
    else if test ErrorPattern message then error_ message false sv
    else log message false sv in
  if test DonePattern message then
    let sv := log (str "Server is running...") true sv in
    let sv := set_state RUNNING sv in
    let sv := log (str "Loading properties...") true sv in
    with_loading (S (loading sv)) sv
  else if test StopPattern message then
    let sv := log (str "Server is stopping...") true sv in
    set_state STOPPING sv
  else if test EulaPattern message then
    let sv := warn (str "Server was unable to start, the user must accept the EULA...") true sv in
    let sv := set_state STOPPING sv in
    emit EEula sv
  else sv.

(** The messages of a chunk: a line feed is put before every match of
    [PrefixPattern], the text is split at the line feeds and the empty
    pieces are dropped. *)
Definition messages_of (data : jsstring) : list jsstring :=
  List.filter truthy
    (split LF (replace_all PrefixPattern (fun m => LF :: concat m) data)).

(** The listener of ['data'] on [process.stdout]. *)
Definition on_stdout_data (data : jsstring) (sv : t) : t :=
  fold_left (fun sv message => on_message message sv) (messages_of data) sv.

(** The promise of [this.properties.loadProperties()] settles. *)
Definition on_properties_settled (fs : FS) (sv : t) : t :=
  let sv := with_loading (pred (loading sv)) sv in
  match Properties.loadProperties fs (properties sv) with
  | (p, inr _) =>
      log (str "Successfully loaded properties.") true (with_properties p sv)
  | (p, inl _) =>
      error_ (str "Failed to load properties.") true (with_properties p sv)
  end.

(** The listener of ['exit'] on the child process; [code] and [signal]
    are [null] when they are [None]. *)
Definition on_exit (code : option Z) (signal : option jsstring) (sv : t) : t :=
  let sv :=
    set_state (if bool_decide (code = Some 0%Z) then STOPPED else CRASHED) sv in
  let sv :=
    match code with
    | None =>
        error_ (str "Server exited with signal: "
                  ++ match signal with Some s => s | None => str "null" end) true sv
    | Some c =>
        if bool_decide (c = 0%Z) then log (str "Server Stopped") true sv
        else error_ (str "Server exited with code: " ++ of_Z c) true sv
    end in
  with_process None sv.

(** [async start()]; what it awaits is answered by [io]. *)
Definition start (io : StartIO) : M unit :=
  rethrowing
    (fun this =>
       (when (negb (canStart this)) (throw (ServerStateError (state this))) ;;;
        effect (set_state STARTING) ;;;
        effect (log (str "Attempting to start server...") true) ;;;
        when (negb (path_exists io))
          (effect (warn (str "Creating server directory...") true) ;;;
           settle (mkdir_ io)) ;;;
        isCorrectVersion <-
          (fun sv =>
             let '(v, r) := validateVersion_ io (version sv) in
             (with_version v sv, r)) ;;
        when (negb isCorrectVersion)
          (effect (log (str "Downloading server jar...") true) ;;;
           rethrowing
             (fun sv =>
                let '(v, progress, r) := buildJar_ io (version sv) in
                let sv := with_version v sv in
                let sv :=
                  fold_left
                    (fun sv '(cur, tot) => emit (EDownload (jar this) cur tot) sv)
                    progress sv in
                settle r sv)
             (fun _ => set_state CRASHED)) ;;;
        effect (log (str "Starting child process...") true) ;;;
        process <- (fun sv => (sv, spawn_ io)) ;;
        effect (with_process (Some process))) this)
    (fun err => error_ (message err) true).

(** [async execute(command)] *)
Definition execute (command : jsstring) : M unit :=
  rethrowing
    (fun this =>
       (when (negb (canStop this)) (throw (ServerStateError (state this))) ;;;
        effect (log command true) ;;;
        effect (write_stdin command) ;;;
        effect (write_stdin EOL)) this)
    (fun err => error_ (message err) true).

(** [async stop()] *)
Definition stop : M unit :=
  rethrowing
    (fun this =>
       (when (negb (canStop this)) (throw (ServerStateError (state this))) ;;;
        effect (log (str "Attempting to stop the server...") true) ;;;
        effect (write_stdin (str "stop")) ;;;
        effect (write_stdin EOL)) this)
    (fun err => error_ (message err) true).

(** [async quit()]: the loop [while (!this.canStop) continue] never
    gives the event loop a turn, so in a state that can neither start
    nor stop the call does not return ([None]). *)
Definition quit (sv : t) : option t :=
  if canStart sv then Some sv
  else if canStop sv then Some (write_stdin EOL (write_stdin (str "stop") sv))
  else None.

(** [async acceptEula(accept)] *)
Definition acceptEula (accept : bool) (fs : FS) (this : t) : FS * t * (error + bool) :=
  match readFile fs (eula this) with
  | inl err => (fs, this, inl err)
  | inr content =>
      let fs :=
        writeFile fs (eula this)
          (replace_all EulaLinePattern (fun _ => eula_line accept) content) in
      (fs, this, inr accept)
  end.

(** The operations that the state guards. *)
Inductive operation : Type :=
| OpStart (io : StartIO)
| OpExecute (command : jsstring)
| OpStop.

Definition perform (op : operation) : M unit :=
  match op with
  | OpStart io => start io
  | OpExecute command => execute command
  | OpStop => stop
  end.
End WithHost.

(** The table of section 4.1 of the specification: the states in which an
    operation is legal. *)
Definition legal (s : ServerStatus) (op : operation) : bool :=
  match op, s with
  | OpStart _, (STOPPED | CRASHED) => true
  | (OpExecute _ | OpStop), RUNNING => true
  | _, _ => false
  end.

(** The line of the specification that tells that the server is ready. *)
Definition done_line : jsstring :=
  str "[12:34:56] [Server thread/INFO]: Done (3.2s)! For help, type...".

(** [new Server(version, options)] with the default options; [javaPath]
    is [DEFAULT_JAVA_PATH], read from the environment. *)
Definition new (path_join : jsstring -> jsstring -> jsstring)
  (version : option jsstring) (javaPath : jsstring) : t :=
  {| version := version; minMemory := 256; softMaxMemory := 512; maxMemory := 1024;
     javaPath := javaPath; path := str "./server"; state := STOPPED; logs := [];
     properties :=
       Properties.new (path_join (str "./server") (str "server.properties"));
     process := None; emitted := []; loading := 0 |}.

End Server.

(** ** [src/server.ts]

    The class as it was before it moved to [src/servers/server.ts]. In
    what the statements below are about it differs from the class above
    in [acceptEula] only, which is given here with the [start] of that
    revision as a parameter. *)

Module LegacyServer.
Import JS Shared.

Section WithHost.
Variable path_join : jsstring -> jsstring -> jsstring.
Variable start : Server.M unit.

(** [async acceptEula(accept)]; it resolves to [undefined]. *)
Definition acceptEula (accept : bool) (fs : FS) (this : Server.t)
  : FS * Server.t * (error + unit) :=
  if negb accept then (fs, this, inr tt)
  else
    match readFile fs (Server.eula path_join this) with
    | inl err => (fs, this, inl err)
    | inr content =>
        let fs :=
          writeFile fs (Server.eula path_join this)
            (replace_first (lit "eula=false") (fun _ => str "eula=true") content) in
        let '(this, r) := start this in
        (fs, this, r)
    end.
End WithHost.

End LegacyServer.

(** ** A host for the examples *)

Module Host.
Import JS Shared Versions.

(** A clock that always reads noon, and paths joined by a slash. *)
Definition noon (_ : nat) : jsstring := str "12:00:00".
Definition slash (a b : jsstring) : jsstring := a ++ str "/" ++ b.

(** The manifest of the specification: [1.20] has no server download,
    [1.19] has one. *)
Definition info_of (i : string) : Versions.IVersionInfo :=
  {| id := str i; type := release; url := str "https://example.org/" ++ str i;
     time := []; releaseTime := []; sha1 := []; complianceLevel := 1 |}.

Definition jar_of (i : string) : IVersionDownload :=
  {| d_sha1 := []; d_size := 1; d_url := str "https://example.org/jar/" ++ str i |}.

Definition two_versions : IVersionManifest :=
  {| latest := {| latest_release := str "1.20"; latest_snapshot := [] |};
     versions := [info_of "1.20"; info_of "1.19"] |}.

(** Answers that come in the order of the requests. *)
Definition in_turn (_ : jsstring) : nat := 0%nat.

Definition upstream (u : jsstring) : error + IVersion :=
  if bool_decide (u = url (info_of "1.20"))
  then inr {| v_id := str "1.20";
              downloads := {| client := jar_of "c"; client_mappings := None;
                              server := None; server_mappings := None;
                              windows_server := None |} |}
  else inr {| v_id := str "1.19";
              downloads := {| client := jar_of "c"; client_mappings := None;
                              server := Some (jar_of "s"); server_mappings := None;
                              windows_server := None |} |}.

End Host.


(** ** A server over time *)

Module Session.
Import JS Shared Server.

(** What happens to a server: the program calls a method, or the event
    loop calls a listener that [start] has set on the child process or on
    the promise of [loadProperties]. A call of [start] is taken whole,
    with what it awaits. *)
Inductive call : Type :=
| Perform (op : operation)
| Quit
| OnError (err_message : jsstring)
| OnStdoutData (data : jsstring)
| OnPropertiesSettled (fs : FS)
| OnExit (code : option Z) (signal : option jsstring).

Section WithHost.
Variable clock : nat -> jsstring.
Variable path_join : jsstring -> jsstring -> jsstring.
Variable EOL : jsstring.

(** The server after a call; [None] when the call keeps the thread for
    ever. *)
Definition after (c : call) (sv : t) : option t :=
  match c with
  | Perform op => Some (fst (perform clock path_join EOL op sv))
  | Quit => quit EOL sv
  | OnError err_message => Some (on_error clock err_message sv)
  | OnStdoutData data => Some (on_stdout_data clock data sv)
  | OnPropertiesSettled fs => Some (on_properties_settled clock fs sv)
  | OnExit code signal => Some (on_exit clock code signal sv)
  end.

Fixpoint run (calls : list call) (sv : t) : option t :=
  match calls with
  | [] => Some sv
  | c :: calls' =>
      match after c sv with
      | Some sv' => run calls' sv'
      | None => None
      end
  end.
End WithHost.

(** *** Vocabulary of the statements *)

(** The state that a listener of [stateUpdate] knows after the events,
    when it knew [s] before. *)
Definition announced (evs : list ServerEvent) (s : ServerStatus) : ServerStatus :=
  fold_left (fun s e => match e with EStateUpdate s' => s' | _ => s end) evs s.

(** The logs that a listener of [message] has received. *)
Definition messages_in (evs : list ServerEvent) : list IServerLog :=
  flat_map (fun e => match e with EMessage l => [l] | _ => [] end) evs.

(** The second server is the first one after the events [evs]: they were
    emitted, the messages among them were logged and the last state among
    them is the state. *)
Definition follows (evs : list ServerEvent) (sv sv' : t) : Prop :=
  emitted sv' = emitted sv ++ evs
  /\ logs sv' = logs sv ++ messages_in evs
  /\ state sv' = announced evs (state sv).

(** The text without its line feeds. *)
Definition without_LF (s : jsstring) : jsstring :=
  List.filter (fun x => negb (x =? LF)) s.

End Session.

(** ** The constructor of [Server] *)

Module Construction.
Import JS Shared.

(** [IOptions] *)
Record IOptions : Type :=
  { minMemory : N;
    softMaxMemory : N;
    maxMemory : N;
    javaPath : jsstring;
    path : jsstring }.

(** [Partial<IOptions>]: the keys that the object has, none of them with
    the value [undefined]. *)
Record PartialOptions : Type :=
  { minMemory_ : option N;
    softMaxMemory_ : option N;
    maxMemory_ : option N;
    javaPath_ : option jsstring;
    path_ : option jsstring }.

(** No [options], or an object without keys. *)
Definition no_options : PartialOptions :=
  {| minMemory_ := None; softMaxMemory_ := None; maxMemory_ := None;
     javaPath_ := None; path_ := None |}.

(** [Object.assign(target, source)]: the target after the call, which is
    also what the call returns. *)
Definition assign (target : IOptions) (source : PartialOptions) : IOptions :=
  {| minMemory := default (minMemory target) (minMemory_ source);
     softMaxMemory := default (softMaxMemory target) (softMaxMemory_ source);
     maxMemory := default (maxMemory target) (maxMemory_ source);
     javaPath := default (javaPath target) (javaPath_ source);
     path := default (path target) (path_ source) |}.

(** [static DefaultOptions], as the class is loaded. *)
Definition DefaultOptions (DEFAULT_JAVA_PATH : jsstring) : IOptions :=
  {| minMemory := 256; softMaxMemory := 512; maxMemory := 1024;
     javaPath := DEFAULT_JAVA_PATH; path := str "./server" |}.

(** [new Server(version, options)], with the static [Server.DefaultOptions]
    before the call: the server, and the static after the call. The
    target of [Object.assign] is the static itself. *)
Definition constructor (path_join : jsstring -> jsstring -> jsstring)
  (version : option jsstring) (options : PartialOptions) (defaults : IOptions)
  : Server.t * IOptions :=
  let merged := assign defaults options in
  ({| Server.version := version;
      Server.minMemory := minMemory merged;
      Server.softMaxMemory := softMaxMemory merged;
      Server.maxMemory := maxMemory merged;
      Server.javaPath := javaPath merged;
      Server.path := path merged;
      Server.state := STOPPED;
      Server.logs := [];
      Server.properties :=
        Properties.new (path_join (path merged) (str "server.properties"));
      Server.process := None;
      Server.emitted := [];
      Server.loading := 0 |},
   merged).

End Construction.
(** * Facts about the matcher *)

Section Matcher.
Import JS.

Lemma all_in_nil c : all_in c [].
Proof. constructor. Qed.

Lemma all_in_cons c x s : cls_mem c x = true -> all_in c s -> all_in c (x :: s).
Proof. intros. constructor; assumption. Qed.

Lemma all_in_inv c x s : all_in c (x :: s) -> cls_mem c x = true /\ all_in c s.
Proof. intros H. inversion H; subst. split; assumption. Qed.

Lemma all_in_app c s1 s2 : all_in c (s1 ++ s2) <-> all_in c s1 /\ all_in c s2.
Proof. unfold all_in. apply Forall_app. Qed.

(** A run finds nothing exactly when the continuation fails after every
    prefix made of the class. *)
Lemma many_none c k s :
  many c k s = None <->
  (forall seg rest, s = seg ++ rest -> all_in c seg -> k rest = None).
Proof.
  induction s as [|x s IH]; simpl.
  - split.
    + intros H seg rest E _. destruct seg; [|discriminate].
      simpl in E. subst rest. destruct (k []); [discriminate | reflexivity].
    + intros H. rewrite (H [] [] eq_refl (all_in_nil c)). reflexivity.
  - split.
    + intros H seg rest E Hseg.
      destruct seg as [|y seg].
      * simpl in E. subst rest.
        destruct (cls_mem c x); [destruct (many c k s) as [[? ?]|] |];
          simpl in H; try discriminate;
          destruct (k (x :: s)); (discriminate || reflexivity).
      * injection E as -> E. subst s.
        apply all_in_inv in Hseg as [Hx Hseg'].
        rewrite Hx in H.
        destruct (many c k (seg ++ rest)) as [[? ?]|] eqn:Em; [discriminate|].
        exact (proj1 IH eq_refl seg rest eq_refl Hseg').
    + intros H.
      assert (Hk : k (x :: s) = None) by exact (H [] _ eq_refl (all_in_nil c)).
      rewrite Hk.
      destruct (cls_mem c x) eqn:Hx; [|reflexivity].
      assert (Hm : many c k s = None).
      { apply IH. intros seg rest E Hseg.
        apply (H (x :: seg) rest); [simpl; congruence | constructor; assumption]. }
      rewrite Hm. reflexivity.
Qed.

(** The longest run after which the continuation succeeds is the one that
    is chosen. *)
Lemma many_intro c k seg rest r :
  all_in c seg -> k rest = Some r -> longest c k rest ->
  many c k (seg ++ rest) = Some (seg, r).
Proof.
  intros Hseg Hk Hmax. induction Hseg as [|x seg Hx Hseg IH]; simpl.
  - assert (Hin : match rest with
                  | x :: s' =>
                      if cls_mem c x
                      then match many c k s' with
                           | Some (seg, r) => Some (x :: seg, r)
                           | None => None
                           end
                      else None
                  | [] => None
                  end = None).
    { destruct rest as [|x s']; [reflexivity|].
      destruct (cls_mem c x) eqn:Hx; [|reflexivity].
      assert (Hm : many c k s' = None).
      { apply many_none. intros seg rest' E Hs.
        apply (Hmax (x :: seg) rest'); [discriminate | simpl; congruence |].
        constructor; assumption. }
      rewrite Hm. reflexivity. }
    destruct rest; simpl in *; rewrite ?Hin, Hk; reflexivity.
  - rewrite Hx, IH. reflexivity.
Qed.

Lemma many_sound c k s seg r :
  many c k s = Some (seg, r) ->
  exists rest, s = seg ++ rest /\ all_in c seg /\ k rest = Some r /\ longest c k rest.
Proof.
  revert seg r. induction s as [|x s IH]; intros seg r; simpl.
  - destruct (k []) eqn:Hk; [|discriminate]. intros [= <- <-].
    exists []. repeat split; [constructor | assumption |].
    intros seg' rest' Hne E. destruct seg'; [congruence | discriminate].
  - destruct (cls_mem c x) eqn:Hx.
    + destruct (many c k s) as [[seg0 r0]|] eqn:Hm; simpl.
      * intros [= <- <-]. destruct (IH _ _ eq_refl) as (rest & -> & Hs & Hk & Hmax).
        exists rest. repeat split; [constructor|..]; assumption.
      * destruct (k (x :: s)) eqn:Hk; [|discriminate]. intros [= <- <-].
        exists (x :: s). repeat split; [constructor | assumption |].
        intros seg' rest' Hne E Hs. destruct seg' as [|y seg']; [congruence|].
        injection E as <- ->. inversion Hs; subst.
        exact (proj1 (many_none c k _) Hm seg' rest' eq_refl H2).
    + simpl. destruct (k (x :: s)) eqn:Hk; [|discriminate]. intros [= <- <-].
      exists (x :: s). repeat split; [constructor | assumption |].
      intros seg' rest' Hne E Hs. destruct seg' as [|y seg']; [congruence|].
      injection E as <- ->. inversion Hs; subst. congruence.
Qed.

(** A run to the end of the input. *)
Lemma exec_eoi s r : exec [Eoi] s = Some r -> s = [] /\ r = ([[]], []).
Proof. destruct s; simpl; [intros [= <-]; auto | discriminate]. Qed.

Lemma many_eoi_all c s :
  all_in c s -> many c (exec [Eoi]) s = Some (s, ([[]], [])).
Proof.
  intros H. rewrite <- (app_nil_r s) at 1.
  apply many_intro; [assumption | reflexivity |].
  intros seg' rest' Hne E. destruct seg'; [congruence | discriminate].
Qed.

Lemma many_eoi_inv c s seg r :
  many c (exec [Eoi]) s = Some (seg, r) ->
  seg = s /\ r = ([[]], []) /\ all_in c s.
Proof.
  intros H. apply many_sound in H as (rest & -> & Hs & Hk & _).
  apply exec_eoi in Hk as [-> ->]. rewrite app_nil_r. auto.
Qed.

(** One step of [exec], atom by atom. *)
Lemma exec_one c p s : exec (Cls c One :: p) s = one c (exec p) s.
Proof. reflexivity. Qed.

Lemma exec_star c p s :
  exec (Cls c Star :: p) s =
    match many c (exec p) s with
    | Some (seg, r) => Some (push seg r)
    | None => None
    end.
Proof. reflexivity. Qed.

Lemma exec_plus c p x s :
  exec (Cls c Plus :: p) (x :: s) =
    if cls_mem c x
    then match many c (exec p) s with
         | Some (seg, r) => Some (push (x :: seg) r)
         | None => None
         end
    else None.
Proof. reflexivity. Qed.

Lemma exec_not_ahead c p s :
  exec (NotAhead c :: p) s =
    match s with
    | x :: _ => if cls_mem c x then None else option_map (push []) (exec p s)
    | [] => option_map (push []) (exec p s)
    end.
Proof. reflexivity. Qed.

End Matcher.

(** * Facts about [Properties] *)

Section PropertiesFacts.
Import JS Shared Properties.

Lemma dot_clean s : all_in CDot s -> clean s.
Proof.
  unfold all_in, clean. intros Hs.
  induction Hs as [|x s H _ IH]; constructor; [|assumption].
  unfold cls_mem, is_line_terminator in H.
  apply negb_true_iff in H. rewrite !orb_false_iff in H.
  destruct H as [[[H1 H2] _] _].
  apply N.eqb_neq in H1, H2. unfold LF, CR. auto.
Qed.

Lemma clean_app s1 s2 : clean (s1 ++ s2) <-> clean s1 /\ clean s2.
Proof. unfold clean. apply Forall_app. Qed.

(** The last three atoms of [PropertyPattern]. *)
Lemma exec_value s r :
  exec [Cls (CChar 61) One; Cls CDot Star; Eoi] s = Some r <->
  exists value, s = 61 :: value /\ all_in CDot value /\ r = ([[61]; value; []], []).
Proof.
  rewrite exec_one. split.
  - destruct s as [|x s]; [discriminate|]. unfold one, cls_mem.
    destruct (x =? 61) eqn:Hx; [|discriminate]. apply N.eqb_eq in Hx as ->.
    rewrite exec_star.
    destruct (many CDot (exec [Eoi]) s) as [[seg r0]|] eqn:Hm; [|discriminate].
    apply many_eoi_inv in Hm as (-> & -> & Hs). simpl. intros [= <-].
    exists s. auto.
  - intros (value & -> & Hv & ->). unfold one, cls_mem.
    rewrite N.eqb_refl, exec_star, (many_eoi_all _ _ Hv). reflexivity.
Qed.

Lemma exec_key_value_inv s r :
  exec key_value s = Some r ->
  exists name value,
    s = name ++ 61 :: value /\ name <> [] /\ all_in CDot name /\ all_in CDot value
    /\ r = ([name; [61]; value; []], []).
Proof.
  unfold key_value. destruct s as [|x s]; [discriminate|]. rewrite exec_plus.
  destruct (cls_mem CDot x) eqn:Hx; [|discriminate].
  destruct (many CDot _ s) as [[seg r0]|] eqn:Hm; [|discriminate].
  apply many_sound in Hm as (rest & -> & Hseg & Hk & _).
  apply exec_value in Hk as (value & -> & Hv & ->). intros [= <-].
  exists (x :: seg), value. repeat split; try assumption; try discriminate.
  apply all_in_cons; assumption.
Qed.

(** Among several equals signs the last one is the separator. *)
Lemma exec_key_value_last name value :
  name <> [] -> all_in CDot name -> all_in CDot value -> 61 ∉ value ->
  exec key_value (name ++ 61 :: value) = Some ([name; [61]; value; []], []).
Proof.
  intros Hne Hn Hv Hno. destruct name as [|x name]; [congruence|].
  apply all_in_inv in Hn as [Hx Hn].
  unfold key_value. simpl app. rewrite exec_plus, Hx.
  rewrite (many_intro CDot _ name (61 :: value) ([[61]; value; []], [])).
  - reflexivity.
  - assumption.
  - apply exec_value. exists value. auto.
  - intros seg' rest' Hne' E Hs.
    destruct seg' as [|y seg']; [congruence|]. injection E as <- ->.
    destruct (exec _ rest') as [r|] eqn:Hr; [|reflexivity].
    apply exec_value in Hr as (v & -> & _). exfalso. apply Hno.
    apply elem_of_app. right. left.
Qed.

(** The separator exists as soon as the text has the shape. *)
Lemma exec_key_value_some name value :
  name <> [] -> all_in CDot name -> all_in CDot value ->
  exists r, exec key_value (name ++ 61 :: value) = Some r.
Proof.
  intros Hne Hn Hv. destruct name as [|x name]; [congruence|].
  apply all_in_inv in Hn as [Hx Hn].
  unfold key_value. simpl app. rewrite exec_plus, Hx.
  destruct (many CDot _ (name ++ 61 :: value)) as [[seg r]|] eqn:Hm; [eauto|].
  exfalso.
  pose proof (proj1 (many_none _ _ _) Hm name (61 :: value) eq_refl Hn) as Hk.
  assert (Hs : exec [Cls (CChar 61) One; Cls CDot Star; Eoi] (61 :: value)
               = Some ([[61]; value; []], [])).
  { apply exec_value. exists value. auto. }
  congruence.
Qed.

Lemma exec_unindented_inv s r :
  exec unindented s = Some r ->
  exists name value,
    s = name ++ 61 :: value /\ name <> [] /\ head name <> Some 35
    /\ all_in CDot name /\ all_in CDot value
    /\ r = ([[]; name; [61]; value; []], []).
Proof.
  unfold unindented. rewrite exec_not_ahead.
  destruct s as [|x s]; [discriminate|].
  destruct (cls_mem (CChar 35) x) eqn:Hx; [discriminate|].
  destruct (exec key_value (x :: s)) as [r0|] eqn:Hr; [|discriminate].
  apply exec_key_value_inv in Hr as (name & value & E & Hne & Hn & Hv & ->).
  intros [= <-]. exists name, value. repeat split; try assumption.
  destruct name as [|y name]; [congruence|]. injection E as <- _.
  simpl. intros [= ->]. discriminate.
Qed.

(** The whole pattern: where it matches, the line is white space, then
    the name, the equals sign and the value; a match of the rest of the
    line alone gives the same name and value. *)
Lemma exec_property_inv s r :
  exec (atoms PropertyPattern) s = Some r ->
  exists w name value,
    s = w ++ name ++ 61 :: value /\ all_in CSpace w /\ name <> []
    /\ head name <> Some 35 /\ all_in CDot name /\ all_in CDot value
    /\ r = ([w; []; name; [61]; value; []], [])
    /\ exec (atoms PropertyPattern) (name ++ 61 :: value)
       = Some ([[]; []; name; [61]; value; []], []).
Proof.
  change (atoms PropertyPattern) with (Cls CSpace Star :: unindented).
  rewrite !exec_star.
  destruct (many CSpace _ s) as [[w r0]|] eqn:Hm; [|discriminate].
  apply many_sound in Hm as (rest & -> & Hw & Hk & Hmax).
  pose proof Hk as Hk'.
  apply exec_unindented_inv in Hk' as (name & value & -> & Hne & Hh & Hn & Hv & ->).
  intros [= <-]. exists w, name, value. repeat split; try assumption.
  rewrite exec_star.
  rewrite (many_intro CSpace _ [] _ _ (all_in_nil _) Hk Hmax
            : many CSpace _ (name ++ 61 :: value) = _).
  reflexivity.
Qed.

Lemma not_comment s : head s <> Some 35 -> test CommentPattern s = false.
Proof.
  intros H. unfold test, rmatch. simpl bol. cbv iota.
  change (atoms CommentPattern) with [Cls (CChar 35) One; Cls CDot Plus; Eoi].
  rewrite exec_one. destruct s as [|x s]; [reflexivity|]. unfold one, cls_mem.
  destruct (x =? 35) eqn:Hx; [|reflexivity].
  apply N.eqb_eq in Hx as ->. simpl in H. congruence.
Qed.

Lemma comment_inv s :
  test CommentPattern s = true ->
  exists t, s = 35 :: t /\ t <> [] /\ all_in CDot t.
Proof.
  unfold test, rmatch. simpl bol. cbv iota.
  change (atoms CommentPattern) with [Cls (CChar 35) One; Cls CDot Plus; Eoi].
  rewrite exec_one. destruct s as [|x s]; [discriminate|]. unfold one, cls_mem.
  destruct (x =? 35) eqn:Hx; [|discriminate]. apply N.eqb_eq in Hx as ->.
  destruct s as [|y s]; [discriminate|]. rewrite exec_plus.
  destruct (cls_mem CDot y) eqn:Hy; [|discriminate].
  destruct (many CDot (exec [Eoi]) s) as [[seg r0]|] eqn:Hm; [|discriminate].
  apply many_eoi_inv in Hm as (-> & -> & Hs). intros _.
  exists (y :: s). repeat split; [discriminate | apply all_in_cons; assumption].
Qed.

Lemma comment_intro t :
  t <> [] -> all_in CDot t -> test CommentPattern (35 :: t) = true.
Proof.
  intros Hne Ht. destruct t as [|y t]; [congruence|].
  apply all_in_inv in Ht as [Hy Ht].
  unfold test, rmatch. simpl bol. cbv iota.
  change (atoms CommentPattern) with [Cls (CChar 35) One; Cls CDot Plus; Eoi].
  rewrite exec_one. unfold one. simpl cls_mem at 1.
  rewrite exec_plus, Hy, (many_eoi_all _ _ Ht). reflexivity.
Qed.

Lemma load_line_loaded line : loaded line (load_line line).
Proof.
  unfold load_line. destruct (test CommentPattern line) eqn:Hc.
  - apply comment_inv in Hc as (t & E & Hne & Ht). econstructor; eassumption.
  - unfold rmatch. simpl bol. cbv iota.
    destruct (exec (atoms PropertyPattern) line) as [r|] eqn:Hr; simpl option_map; cbv iota.
    + apply exec_property_inv in Hr
        as (w & name & value & E & Hw & Hne & Hh & Hn & Hv & -> & Hagain).
      simpl. eapply loaded_property; try eassumption.
      unfold load_line. rewrite not_comment.
      * unfold rmatch. simpl bol. cbv iota. rewrite Hagain. reflexivity.
      * destruct name; [congruence | exact Hh].
    + constructor.
Qed.

(** Loading what was written for a loaded line gives the same line. *)
Lemma load_render_load line :
  load_line (render_line (load_line line)) = load_line line.
Proof.
  destruct (load_line_loaded line) as [t E Hne Ht | w name value E Hw Hne Hh Hn Hv Hl |].
  - simpl. unfold load_line. rewrite E, (comment_intro t Hne Ht). reflexivity.
  - simpl. exact Hl.
  - reflexivity.
Qed.

(** What is written for a loaded line has no line end in it. *)
Lemma render_load_clean line : clean (render_line (load_line line)).
Proof.
  destruct (load_line_loaded line) as [t E Hne Ht | w name value E Hw Hne Hh Hn Hv Hl |].
  - simpl. rewrite E. constructor.
    + unfold LF, CR. split; discriminate.
    + apply dot_clean. assumption.
  - simpl. apply clean_app. split; [apply dot_clean; assumption|].
    constructor; [unfold LF, CR; split; discriminate | apply dot_clean; assumption].
  - constructor.
Qed.

End PropertiesFacts.

(** * Lines and line ends *)

Section Lines.
Import JS Shared Properties.

Lemma split_not_nil sep s : split sep s <> [].
Proof.
  destruct s as [|x s]; simpl; [discriminate|].
  destruct (x =? sep); [discriminate|]. destruct (split sep s); discriminate.
Qed.

Lemma join_cons sep l l' ls :
  join sep (l :: l' :: ls) = l ++ sep ++ join sep (l' :: ls).
Proof. reflexivity. Qed.

Lemma join_split sep s : join [sep] (split sep s) = s.
Proof.
  induction s as [|x s IH]; simpl; [reflexivity|].
  destruct (x =? sep) eqn:Hx.
  - apply N.eqb_eq in Hx as ->.
    pose proof (split_not_nil sep s) as Hne.
    destruct (split sep s) as [|l ls]; [congruence|].
    rewrite join_cons. simpl. simpl in IH. rewrite IH. reflexivity.
  - pose proof (split_not_nil sep s) as Hne.
    destruct (split sep s) as [|l ls]; [congruence|].
    destruct ls as [|l' ls]; simpl in *; rewrite <- IH; reflexivity.
Qed.

Lemma split_line sep l :
  sep ∉ l -> split sep l = [l].
Proof.
  induction l as [|x l IH]; intros H; simpl; [reflexivity|].
  destruct (x =? sep) eqn:Hx.
  - apply N.eqb_eq in Hx as ->. exfalso. apply H. left.
  - rewrite IH; [reflexivity|]. intros Hin. apply H. right. assumption.
Qed.

Lemma split_app sep l rest :
  sep ∉ l -> split sep (l ++ sep :: rest) = l :: split sep rest.
Proof.
  induction l as [|x l IH]; intros H; simpl.
  - rewrite N.eqb_refl. reflexivity.
  - destruct (x =? sep) eqn:Hx.
    + apply N.eqb_eq in Hx as ->. exfalso. apply H. left.
    + rewrite IH; [reflexivity|]. intros Hin. apply H. right. assumption.
Qed.

Lemma split_join sep ls :
  ls <> [] -> Forall (fun l => sep ∉ l) ls -> split sep (join [sep] ls) = ls.
Proof.
  intros Hne H. induction H as [|l ls Hl Hls IH]; [congruence|].
  destruct ls as [|l' ls].
  - simpl. apply split_line. assumption.
  - rewrite join_cons.
    change (l ++ [sep] ++ join [sep] (l' :: ls))
      with (l ++ sep :: join [sep] (l' :: ls)).
    rewrite split_app by assumption.
    rewrite IH; [reflexivity | discriminate].
Qed.

Lemma clean_no_lf s : clean s -> LF ∉ s.
Proof.
  intros H Hin. unfold clean in H. rewrite Forall_forall in H.
  destruct (H _ Hin) as [H1 _]. congruence.
Qed.

(** [normalize_newlines], step by step. *)
Lemma norm_char x s : x <> LF -> x <> CR -> normalize_newlines (x :: s) = x :: normalize_newlines s.
Proof.
  intros H1 H2. unfold normalize_newlines, replace_all. simpl.
  apply N.eqb_neq in H1, H2. unfold LF, CR in *. rewrite H1, H2. reflexivity.
Qed.

Lemma norm_lf s : normalize_newlines (LF :: s) = LF :: normalize_newlines s.
Proof. reflexivity. Qed.

Lemma norm_crlf s : normalize_newlines (CR :: LF :: s) = LF :: normalize_newlines s.
Proof. reflexivity. Qed.

Lemma norm_clean l t : clean l -> normalize_newlines (l ++ t) = l ++ normalize_newlines t.
Proof.
  intros H. induction H as [|x l [H1 H2] _ IH]; [reflexivity|].
  simpl. rewrite norm_char by assumption. rewrite IH. reflexivity.
Qed.

Lemma norm_clean_line l : clean l -> normalize_newlines l = l.
Proof.
  intros H. rewrite <- (app_nil_r l) at 1. rewrite norm_clean by assumption.
  change (normalize_newlines []) with (@nil N). apply app_nil_r.
Qed.

Lemma norm_join EOL ls :
  is_EOL EOL -> Forall clean ls -> normalize_newlines (join EOL ls) = join [LF] ls.
Proof.
  intros HE H. induction H as [|l ls Hl Hls IH]; [reflexivity|].
  destruct ls as [|l' ls].
  - simpl. apply norm_clean_line. assumption.
  - rewrite !join_cons, norm_clean by assumption.
    destruct HE as [-> | ->].
    + change ([LF] ++ join [LF] (l' :: ls)) with (LF :: join [LF] (l' :: ls)).
      rewrite norm_lf, IH. reflexivity.
    + change ([CR; LF] ++ join [CR; LF] (l' :: ls))
        with (CR :: LF :: join [CR; LF] (l' :: ls)).
      rewrite norm_crlf, IH. reflexivity.
Qed.

End Lines.

(** * [Properties]: loading, writing and loading again *)

Section RoundTrip.
Import JS Shared Properties.

Lemma load_key_value_line x name value :
  is_white_space x = false -> x <> 35 ->
  all_in CDot (x :: name) -> all_in CDot value ->
  exists n v,
    (x :: name) ++ 61 :: value = n ++ 61 :: v
    /\ load_line ((x :: name) ++ 61 :: value) = PObject {| name := n; value := v |}.
Proof.
  intros Hws Hx Hn Hv.
  destruct (exec_key_value_some (x :: name) value) as [r Hr];
    [discriminate | assumption | assumption |].
  pose proof Hr as Hr'.
  apply exec_key_value_inv in Hr' as (n & v & E & Hne & Hn' & Hv' & ->).
  exists n, v. split; [assumption|].
  unfold load_line. rewrite not_comment by (simpl; congruence).
  unfold rmatch. simpl bol. cbv iota.
  change (atoms PropertyPattern) with (Cls CSpace Star :: unindented).
  rewrite exec_star.
  assert (Hk : exec unindented ((x :: name) ++ 61 :: value)
               = Some ([[]; n; [61]; v; []], [])).
  { unfold unindented. rewrite exec_not_ahead. simpl app.
    unfold cls_mem. apply N.eqb_neq in Hx. rewrite Hx.
    change (x :: name ++ 61 :: value) with ((x :: name) ++ 61 :: value).
    rewrite Hr. reflexivity. }
  assert (Hmax : longest CSpace (exec unindented) ((x :: name) ++ 61 :: value)).
  { intros seg' rest' Hne' E' Hs. destruct seg' as [|y seg']; [congruence|].
    injection E' as <- _. apply all_in_inv in Hs as [Hy _].
    simpl in Hy. congruence. }
  rewrite (many_intro CSpace _ [] _ _ (all_in_nil _) Hk Hmax
           : many CSpace _ ((x :: name) ++ 61 :: value) = _).
  reflexivity.
Qed.

Lemma render_load_plain l : plain_line l -> render_line (load_line l) = l.
Proof.
  intros [-> | [(t & -> & Hne & Ht) | (x & name & value & -> & Hws & Hx & Hn & Hv)]].
  - reflexivity.
  - unfold load_line. rewrite comment_intro by assumption. reflexivity.
  - destruct (load_key_value_line x name value Hws Hx Hn Hv) as (n & v & E & ->).
    exact (eq_sym E).
Qed.

Lemma set_line_nil line : set_line [] line = line.
Proof. destruct line; reflexivity. Qed.

Lemma map_set_line_nil data : List.map (set_line []) data = data.
Proof.
  induction data as [|line data IH]; simpl; [reflexivity|].
  rewrite set_line_nil, IH. reflexivity.
Qed.

(** C5, as the code has it. After [loadProperties], [setProperties([])]
    leaves the lines in memory as they are and writes a file from which
    [loadProperties] reads the same lines again, whatever the file was;
    the file written is the file read, up to the line ends, when every
    line of the file read is a plain line. *)
Theorem load_set_reload (EOL : jsstring) (fs : FS) (this : Properties.t)
    (content : jsstring) :
  is_EOL EOL ->
  fs !! Properties.path this = Some content ->
  exists this1 fs2 this2 ret written,
    loadProperties fs this = (this1, inr tt)
    /\ setProperties EOL [] fs this1 = (fs2, this2, ret)
    /\ fs2 !! Properties.path this = Some written
    /\ data this2 = data this1
    /\ loadProperties fs2 this2 = (this2, inr tt)
    /\ (Forall plain_line (split LF (normalize_newlines content)) ->
        normalize_newlines written = normalize_newlines content).
Proof.
  intros HE Hfile.
  set (lines := split LF (normalize_newlines content)).
  set (this1 := {| path := path this; data := List.map load_line lines |}).
  set (written := join EOL (List.map render_line (data this1))).
  exists this1, (writeFile fs (path this) written), this1,
    (only_properties (data this1)), written.
  assert (Hnorm : normalize_newlines written
                  = join [LF] (List.map render_line (data this1))).
  { apply (norm_join EOL _ HE). unfold this1. simpl data.
    rewrite Forall_forall. intros l Hl.
    apply list_elem_of_In, in_map_iff in Hl as (d & <- & Hd).
    apply in_map_iff in Hd as (l0 & <- & _). apply render_load_clean. }
  split; [|split; [|split; [|split; [|split]]]].
  - unfold loadProperties, readFile. rewrite Hfile. reflexivity.
  - unfold setProperties. rewrite map_set_line_nil.
    reflexivity.
  - unfold writeFile. apply lookup_insert_eq.
  - reflexivity.
  - unfold loadProperties, readFile. simpl path.
    unfold writeFile. rewrite lookup_insert_eq. rewrite Hnorm.
    rewrite split_join.
    + unfold this1. simpl data. f_equal. f_equal.
      rewrite !List.map_map. apply List.map_ext. intros l. apply load_render_load.
    + unfold this1. simpl data. pose proof (split_not_nil LF (normalize_newlines content)).
      fold lines in H. destruct lines; [congruence | discriminate].
    + unfold this1. simpl data. rewrite Forall_forall. intros l Hl.
      apply list_elem_of_In, in_map_iff in Hl as (d & <- & Hd).
      apply in_map_iff in Hd as (l0 & <- & _).
      apply clean_no_lf, render_load_clean.
  - intros Hplain. rewrite Hnorm. unfold this1. simpl data.
    rewrite List.map_map.
    rewrite (List.map_ext_in _ (fun l => l)).
    + rewrite List.map_id. apply join_split.
    + intros l Hl. apply render_load_plain.
      fold lines in Hplain. rewrite Forall_forall in Hplain.
      apply Hplain, list_elem_of_In. assumption.
Qed.

End RoundTrip.

Section PropertiesClaims.
Import JS Shared Properties.

(** C5, as the claim has it, fails on a file whose key starts after a
    space: the file [#c], empty line, [ a=b] is written back as [#c],
    empty line, [a=b]. *)
Lemma load_set_drops_indentation :
  let file := str "server.properties" in
  let content := str "#c" ++ [LF] ++ [LF] ++ str " a=b" in
  let fs : FS := {[ file := content ]} in
  let this1 := fst (loadProperties fs (Properties.new file)) in
  let fs2 := fst (fst (setProperties [LF] [] fs this1)) in
  data this1 = [PString (str "#c"); PNull;
                PObject {| name := str "a"; value := str "b" |}]
  /\ fs2 !! file = Some (str "#c" ++ [LF] ++ [LF] ++ str "a=b")
  /\ (forall written, fs2 !! file = Some written ->
      normalize_newlines written <> normalize_newlines content).
Proof.
  assert (H1 : fst (loadProperties {[ str "server.properties" := str "#c" ++ [LF] ++ [LF] ++ str " a=b" ]}
                      (Properties.new (str "server.properties")))
               = {| path := str "server.properties";
                    data := [PString (str "#c"); PNull;
                             PObject {| name := str "a"; value := str "b" |}] |}).
  { unfold loadProperties, readFile. simpl path. rewrite lookup_singleton_eq.
    reflexivity. }
  cbv zeta. rewrite H1. split; [reflexivity|].
  unfold setProperties, writeFile. simpl fst. simpl path.
  rewrite lookup_insert_eq. split; [reflexivity|].
  intros written [= <-]. vm_compute. discriminate.
Qed.

(** What the pattern does by its first atom and by the first character
    class of the name: white space before the name is not part of the
    name, and a bare hash is neither a comment nor a key and a value. *)
Example load_line_trims_indentation :
  load_line (str " a=b") = PObject {| name := str "a"; value := str "b" |}
  /\ first_equals_split (str " a=b") = PObject {| name := str " a"; value := str "b" |}.
Proof. split; reflexivity. Qed.

Example load_line_bare_hash : load_line (str "#") = PNull.
Proof. reflexivity. Qed.

(** C6. The code at the example of the claim: the line [a=b=c] is not a
    comment and has an equals sign; the claim splits it at the first
    equals sign, into the name [a] and the value [b=c], and that is the
    line that [setProperties] writes for this name and this value; yet
    [loadProperties] loads it with the name [a=b] and the value [c], and
    so does not read back what the class itself writes. *)
Lemma load_line_splits_at_last_equals :
  let line := str "a=b=c" in
  test CommentPattern line = false
  /\ 61 ∈ line
  /\ first_equals_split line = PObject {| name := str "a"; value := str "b=c" |}
  /\ render_line (PObject {| name := str "a"; value := str "b=c" |}) = line
  /\ load_line line = PObject {| name := str "a=b"; value := str "c" |}
  /\ load_line line <> first_equals_split line.
Proof.
  cbv zeta. split; [reflexivity|]. split.
  - right. left.
  - split; [reflexivity|]. split; [reflexivity|]. split; [reflexivity|].
    vm_compute. discriminate.
Qed.

(** Leading white space, a name, the last equals sign of the line and a
    value. *)
Lemma load_line_last_equals w name value :
  all_in CSpace w -> name <> [] ->
  (forall x, head name = Some x -> is_white_space x = false /\ x <> 35) ->
  all_in CDot name -> all_in CDot value -> 61 ∉ value ->
  load_line (w ++ name ++ 61 :: value) = PObject {| name := name; value := value |}.
Proof.
  intros Hw Hne Hh Hn Hv Hno.
  assert (Hk : exec unindented (name ++ 61 :: value)
               = Some ([[]; name; [61]; value; []], [])).
  { unfold unindented. rewrite exec_not_ahead.
    destruct name as [|x name]; [congruence|].
    destruct (Hh x eq_refl) as [_ Hx]. simpl app.
    unfold cls_mem. apply N.eqb_neq in Hx. rewrite Hx.
    change (x :: name ++ 61 :: value) with ((x :: name) ++ 61 :: value).
    rewrite exec_key_value_last by (assumption || discriminate). reflexivity. }
  assert (Hmax : longest CSpace (exec unindented) (name ++ 61 :: value)).
  { intros seg' rest' Hne' E Hs. destruct seg' as [|y seg']; [congruence|].
    destruct name as [|x name]; [congruence|].
    injection E as <- _. apply all_in_inv in Hs as [Hy _].
    destruct (Hh x eq_refl) as [Hx _]. simpl in Hy. congruence. }
  unfold load_line. rewrite not_comment.
  - unfold rmatch. simpl bol. cbv iota.
    change (atoms PropertyPattern) with (Cls CSpace Star :: unindented).
    rewrite exec_star, (many_intro CSpace _ w _ _ Hw Hk Hmax). reflexivity.
  - destruct w as [|y w].
    + destruct name as [|x name]; [congruence|].
      destruct (Hh x eq_refl) as [_ Hx]. simpl. congruence.
    + apply all_in_inv in Hw as [Hy _]. simpl. intros [= ->]. discriminate.
Qed.

(** With one equals sign the loader splits where the specification says.
    A line that is white space, then a name that is not empty, does not
    start with white space or a hash and has no equals sign, then an
    equals sign and a value without equals sign, and that has no line
    terminator in the name and the value, is loaded as that name and that
    value; a line that starts with its only equals sign is loaded as
    [null]. *)
Theorem load_line_key_value (w name value : jsstring) :
  all_in CSpace w -> name <> [] ->
  (forall x, head name = Some x -> is_white_space x = false /\ x <> 35) ->
  all_in CDot name -> all_in CDot value -> 61 ∉ name -> 61 ∉ value ->
  load_line (w ++ name ++ 61 :: value) = PObject {| name := name; value := value |}
  /\ before_first_equals (name ++ 61 :: value) = name
  /\ after_first_equals (name ++ 61 :: value) = value
  /\ load_line (61 :: value) = PNull.
Proof.
  intros Hw Hne Hh Hn Hv Hnn Hnv.
  split; [apply load_line_last_equals; assumption|].
  split; [|split].
  - clear -Hnn. induction name as [|x name IH]; simpl.
    + reflexivity.
    + destruct (x =? 61) eqn:Hx.
      * apply N.eqb_eq in Hx as ->. exfalso. apply Hnn. left.
      * rewrite IH; [reflexivity|]. intros H. apply Hnn. right. assumption.
  - clear -Hnn. induction name as [|x name IH]; simpl.
    + reflexivity.
    + destruct (x =? 61) eqn:Hx.
      * apply N.eqb_eq in Hx as ->. exfalso. apply Hnn. left.
      * apply IH. intros H. apply Hnn. right. assumption.
  - unfold load_line. rewrite not_comment by (simpl; congruence).
    unfold rmatch. simpl bol. cbv iota.
    change (atoms PropertyPattern) with (Cls CSpace Star :: unindented).
    rewrite exec_star.
    assert (Hnone : many CSpace (exec unindented) (61 :: value) = None).
    { apply many_none. intros seg rest E Hs.
      destruct seg as [|y seg].
      - simpl in E. subst rest. unfold unindented. rewrite exec_not_ahead.
        simpl cls_mem. cbv iota. unfold key_value. rewrite exec_plus.
        simpl cls_mem. cbv iota.
        assert (Hm : many CDot (exec [Cls (CChar 61) One; Cls CDot Star; Eoi]) value
                     = None).
        { apply many_none. intros seg rest E _.
          destruct (exec _ rest) as [r|] eqn:Hr; [|reflexivity].
          apply exec_value in Hr as (v & -> & _). exfalso. apply Hnv.
          rewrite E. apply elem_of_app. right. left. }
        rewrite Hm. reflexivity.
      - injection E as <- _. apply all_in_inv in Hs as [Hy _]. discriminate. }
    rewrite Hnone. reflexivity.
Qed.

Lemma load_line_key_value_witness :
  load_line (str "  motd=A Minecraft Server")
  = PObject {| name := str "motd"; value := str "A Minecraft Server" |}.
Proof.
  apply (load_line_key_value (str "  ") (str "motd") (str "A Minecraft Server")).
  - repeat constructor.
  - discriminate.
  - intros x [= <-]. split; [reflexivity | discriminate].
  - repeat constructor.
  - repeat constructor.
  - rewrite list_elem_of_In. vm_compute. intuition discriminate.
  - rewrite list_elem_of_In. vm_compute. intuition discriminate.
Defined.

End PropertiesClaims.

Section SetProperties.
Import JS Shared Properties.

Lemma load_set_reload_witness :
  let file := str "server.properties" in
  let content := str "#c" ++ [CR; LF] ++ [LF] ++ str "a=b" in
  let fs : FS := {[ file := content ]} in
  exists this1 fs2 this2 ret written,
    loadProperties fs (Properties.new file) = (this1, inr tt)
    /\ setProperties [LF] [] fs this1 = (fs2, this2, ret)
    /\ fs2 !! file = Some written
    /\ data this2 = data this1
    /\ loadProperties fs2 this2 = (this2, inr tt)
    /\ normalize_newlines written = normalize_newlines content.
Proof.
  cbv zeta.
  destruct (load_set_reload [LF]
              {[ str "server.properties" := str "#c" ++ [CR; LF] ++ [LF] ++ str "a=b" ]}
              (Properties.new (str "server.properties"))
              (str "#c" ++ [CR; LF] ++ [LF] ++ str "a=b"))
    as (this1 & fs2 & this2 & ret & written & H1 & H2 & H3 & H4 & H5 & H6).
  - left. reflexivity.
  - apply lookup_singleton_eq.
  - exists this1, fs2, this2, ret, written.
    repeat (split; [assumption|]). apply H6.
    change (split LF (normalize_newlines (str "#c" ++ [CR; LF] ++ [LF] ++ str "a=b")))
      with [str "#c"; []; str "a=b"].
    constructor; [|constructor; [|constructor; [|constructor]]].
    + right. left. exists [99]. repeat split; [discriminate | repeat constructor].
    + left. reflexivity.
    + right. right. exists 97, [], [98].
      repeat split; [discriminate | repeat constructor | repeat constructor].
Defined.

Lemma find_by_name_some n properties prop :
  find_by_name n properties = Some prop -> prop ∈ properties /\ name prop = n.
Proof.
  unfold find_by_name. intros H. apply find_some in H as [Hin Hn].
  split; [apply list_elem_of_In; assumption|].
  apply bool_decide_eq_true in Hn. assumption.
Qed.

Lemma set_line_updated properties line : updated properties line (set_line properties line).
Proof.
  destruct line as [l| |s]; simpl; unfold updated; simpl; auto.
  destruct (find_by_name (name l) properties) as [prop|] eqn:Hf; simpl.
  - split; [reflexivity|]. exists prop.
    apply find_by_name_some in Hf as [_ Hn]. auto.
  - split; [reflexivity|]. exists l. auto.
Qed.

Lemma set_line_unmatched properties line :
  (forall prop l, prop ∈ properties -> line = PObject l -> name prop <> name l) ->
  set_line properties line = line.
Proof.
  intros H. destruct line as [l| |s]; simpl; try reflexivity.
  destruct (find_by_name (name l) properties) as [prop|] eqn:Hf; [|reflexivity].
  apply find_by_name_some in Hf as [Hin Hn]. exfalso. exact (H prop l Hin eq_refl Hn).
Qed.

(** C7. [setProperties] keeps the number of lines and the kind of every
    line; a line that is not a key and a value stays as it is, a key and
    a value keeps its name and takes the value of the first input pair of
    that name if there is one; nothing is added for an input pair whose
    name is on no line, and the file is written from the lines. *)
Theorem setProperties_frame (EOL : jsstring) (properties : list IProperty)
    (fs : FS) (this : Properties.t) :
  let '(fs', this', ret) := setProperties EOL properties fs this in
  Properties.path this' = Properties.path this
  /\ length (data this') = length (data this)
  /\ (forall i line, data this !! i = Some line ->
        exists line', data this' !! i = Some line' /\ updated properties line line')
  /\ (forall i line line', data this !! i = Some line -> data this' !! i = Some line' ->
        line' <> line ->
        exists l prop, line = PObject l /\ prop ∈ properties /\ name prop = name l
                       /\ line' = PObject prop)
  /\ ((forall prop l, prop ∈ properties -> PObject l ∈ data this -> name prop <> name l) ->
        data this' = data this)
  /\ fs' = <[Properties.path this := join EOL (List.map render_line (data this'))]> fs
  /\ ret = only_properties (data this').
Proof.
  unfold setProperties. simpl.
  split; [reflexivity|]. split; [apply length_map|].
  split; [|split; [|split; [|split; reflexivity]]].
  - intros i line Hi. exists (set_line properties line). split.
    + change (List.map (set_line properties) (data this))
        with (set_line properties <$> data this).
      rewrite list_lookup_fmap, Hi. reflexivity.
    + apply set_line_updated.
  - intros i line line' Hi Hi' Hne.
    change (List.map (set_line properties) (data this))
      with (set_line properties <$> data this) in Hi'.
    rewrite list_lookup_fmap, Hi in Hi'. injection Hi' as <-.
    destruct line as [l| |s]; simpl in Hne; try congruence.
    simpl. destruct (find_by_name (name l) properties) as [prop|] eqn:Hf; [|congruence].
    apply find_by_name_some in Hf as [Hin Hn]. exists l, prop. auto.
  - intros H. rewrite <- (List.map_id (data this)) at 2.
    apply List.map_ext_in. intros line Hin. apply set_line_unmatched.
    intros prop l Hp ->. apply H; [assumption | apply list_elem_of_In; assumption].
Qed.

Lemma setProperties_frame_witness :
  let data0 := [PString (str "#c"); PNull;
                PObject {| name := str "motd"; value := str "hi" |}] in
  let this := {| path := str "server.properties"; data := data0 |} in
  let pairs := [{| name := str "level-name"; value := str "world" |}] in
  data (snd (fst (setProperties [LF] pairs ∅ this))) = data0.
Proof.
  cbv zeta.
  pose proof (setProperties_frame [LF]
                [{| name := str "level-name"; value := str "world" |}] ∅
                {| path := str "server.properties";
                   data := [PString (str "#c"); PNull;
                            PObject {| name := str "motd"; value := str "hi" |}] |}) as H.
  destruct (setProperties _ _ _ _) as [[fs' this'] ret].
  destruct H as (_ & _ & _ & _ & H & _). simpl. apply H.
  intros prop l Hp Hl. apply list_elem_of_singleton in Hp as ->.
  repeat (apply elem_of_cons in Hl as [Hl|Hl]; [try discriminate|]).
  - injection Hl as ->. simpl. discriminate.
  - inversion Hl.
Defined.

End SetProperties.

(** * [Versions] *)

Section VersionsFacts.
Import JS Shared Versions.

(** ** The manifest is requested once *)

Lemma manifest_stored w p :
  manifest_ w = Some p -> manifest w = (p, w).
Proof. intros H. unfold manifest. rewrite H. reflexivity. Qed.

Lemma manifest_first w :
  manifest_ w = None ->
  exists w', manifest w = (length (requests w), w')
    /\ manifest_ w' = Some (length (requests w))
    /\ requests w' = requests w ++ [manifest_url]
    /\ versions_ w' = versions_ w /\ settled w' = settled w
    /\ versions_json w' = versions_json w.
Proof.
  intros H. unfold manifest. rewrite H. simpl. eexists. split; [reflexivity|].
  simpl. auto.
Qed.

(** Once the promise is stored, a run sends nothing and every read
    returns the stored promise. *)
Lemma run_stored evs : forall w p,
  manifest_ w = Some p ->
  forall ps w', run evs w = (ps, w') ->
    requests w' = requests w /\ manifest_ w' = Some p
    /\ (forall q, q ∈ ps -> q = p).
Proof.
  induction evs as [|e evs IH]; intros w p Hw ps w'; simpl.
  - intros [= <- <-]. repeat split; [assumption|]. intros q Hq. inversion Hq.
  - destruct e as [|s]; simpl.
    + rewrite (manifest_stored w p Hw).
      destruct (run evs w) as [qs w2] eqn:Hr. intros [= <- <-].
      destruct (IH w p Hw _ _ Hr) as (H1 & H2 & H3).
      repeat split; try assumption.
      intros q Hq. apply elem_of_cons in Hq as [-> | Hq]; [reflexivity | auto].
    + match goal with |- context [run evs ?w1] => set (w1' := w1) end.
      destruct (run evs w1') as [qs w2] eqn:Hr. intros [= <- <-].
      destruct (IH w1' p Hw _ _ Hr) as (H1 & H2 & H3).
      repeat split; assumption.
Qed.

(** C8. Over any run of reads of the getter and of promises that settle,
    from any state of the class: at most one request is sent, and it is
    the request of the manifest; if the promise is not stored yet, the
    first read sends it and stores the promise; all the reads of the run
    return one and the same promise, which is the stored one; a promise
    that is stored stays. *)
Theorem manifest_requested_once (evs : list event) (w : World) :
  let '(ps, w') := run evs w in
  exists sent,
    requests w' = requests w ++ sent
    /\ (sent = [] \/ sent = [manifest_url])
    /\ (forall p, manifest_ w = Some p -> sent = [] /\ manifest_ w' = Some p)
    /\ (manifest_ w = None -> ps <> [] -> sent = [manifest_url])
    /\ (ps = [] -> sent = [])
    /\ (forall p q, p ∈ ps -> q ∈ ps -> p = q)
    /\ (forall p, p ∈ ps -> manifest_ w' = Some p).
Proof.
  revert w. induction evs as [|e evs IH]; intros w.
  - simpl. exists []. rewrite app_nil_r.
    split; [reflexivity|]. split; [left; reflexivity|].
    split; [auto|]. split; [congruence|]. split; [reflexivity|].
    split; [intros p q H; inversion H | intros p H; inversion H].
  - destruct (manifest_ w) as [p0|] eqn:Hw.
    + destruct (run (e :: evs) w) as [ps w'] eqn:Hr.
      destruct (run_stored _ _ _ Hw _ _ Hr) as (H1 & H2 & H3).
      exists []. rewrite app_nil_r.
      repeat split; auto; try congruence.
      * intros p q Hp Hq. rewrite (H3 p Hp), (H3 q Hq). reflexivity.
      * intros p Hp. rewrite (H3 p Hp). assumption.
    + destruct e as [|s].
      * simpl. destruct (manifest_first w Hw) as (w1 & E & Hm & Hreq & _).
        rewrite E. destruct (run evs w1) as [qs w2] eqn:Hr.
        destruct (run_stored _ _ _ Hm _ _ Hr) as (H1 & H2 & H3).
        exists [manifest_url]. rewrite H1, Hreq.
        repeat split; auto; try congruence; try discriminate.
        -- intros p q Hp Hq.
           assert (Hall : forall r, r ∈ length (requests w) :: qs -> r = length (requests w)).
           { intros r Hr'. apply elem_of_cons in Hr' as [-> | Hr']; [reflexivity | auto]. }
           rewrite (Hall p Hp), (Hall q Hq). reflexivity.
        -- intros p Hp. apply elem_of_cons in Hp as [-> | Hp]; [assumption|].
           rewrite (H3 p Hp). assumption.
      * simpl.
        match goal with |- context [run evs ?w1] => set (w1' := w1) end.
        specialize (IH w1'). destruct (run evs w1') as [qs w2] eqn:Hr.
        destruct IH as (sent & I1 & I2 & I3 & I4 & I5 & I6 & I7).
        exists sent. simpl in *. repeat split; auto; congruence.
Qed.

End VersionsFacts.

Section ServersView.
Import JS Shared Versions.

Variable respond : jsstring -> error + IVersion.
Variable settles : jsstring -> nat.

Lemma store_other fetched : forall vd k,
  k ∉ List.map v_id fetched -> store fetched vd !! k = vd !! k.
Proof.
  induction fetched as [|v fetched IH]; intros vd k Hk; simpl; [reflexivity|].
  change (fold_left _ fetched ?m) with (store fetched m).
  rewrite IH.
  - apply lookup_insert_ne. intros E. apply Hk. simpl. rewrite E. left.
  - intros H. apply Hk. simpl. right. assumption.
Qed.

Lemma store_some fetched : forall vd k,
  is_Some (vd !! k) \/ k ∈ List.map v_id fetched -> is_Some (store fetched vd !! k).
Proof.
  induction fetched as [|v fetched IH]; intros vd k H; simpl.
  - destruct H as [H | H]; [assumption | inversion H].
  - change (fold_left _ fetched ?m) with (store fetched m).
    apply IH. destruct (decide (v_id v = k)) as [E | E].
    + left. rewrite E, lookup_insert_eq. eauto.
    + destruct H as [H | H].
      * left. rewrite lookup_insert_ne by assumption. assumption.
      * simpl in H. apply elem_of_cons in H as [H | H]; [congruence | right; assumption].
Qed.

Lemma all_answers (infos : list IVersionInfo) :
  (forall info, info ∈ infos ->
     exists version, respond (url info) = inr version /\ v_id version = id info) ->
  exists fetched,
    all (List.map (fun info => (settles (url info), respond (url info))) infos) = inr fetched
    /\ List.map v_id fetched = List.map id infos.
Proof.
  intros H. unfold all.
  assert (Hall : first_rejected
                   (List.map (fun info => (settles (url info), respond (url info))) infos)
                 = None
                 /\ List.map v_id
                      (fulfilled
                         (List.map (fun info => (settles (url info), respond (url info)))
                            infos))
                    = List.map id infos).
  { induction infos as [|info infos IH]; [auto|]. cbn [List.map].
    destruct (H info) as (version & Hr & Hid); [left|].
    destruct IH as [Hf Hm].
    { intros i Hi. apply H. right. assumption. }
    rewrite Hr. cbn [first_rejected fulfilled List.map]. rewrite Hf, Hid, Hm. auto. }
  destruct Hall as [-> Hm]. eauto.
Qed.

Lemma filter_by_inr f field vd infos l :
  filter_by f field vd infos = inr l ->
  (forall info, info ∈ infos -> is_Some (vd !! id info))
  /\ l = List.filter (flag f vd) infos.
Proof.
  revert l. induction infos as [|info infos IH]; intros l; simpl.
  - intros [= <-]. split; [intros i Hi; inversion Hi | reflexivity].
  - unfold flag at 1. destruct (vd !! id info) as [facts|] eqn:Hl; [|discriminate].
    destruct (filter_by f field vd infos) as [e|l0]; [discriminate|].
    intros [= <-]. destruct (IH l0 eq_refl) as [H1 H2]. split.
    + intros i Hi. apply elem_of_cons in Hi as [-> | Hi]; [rewrite Hl; eauto | auto].
    + rewrite H2. reflexivity.
Qed.

Lemma filter_by_total f field vd infos :
  (forall info, info ∈ infos -> is_Some (vd !! id info)) ->
  filter_by f field vd infos = inr (List.filter (flag f vd) infos).
Proof.
  induction infos as [|info infos IH]; intros H; simpl; [reflexivity|].
  unfold flag at 1. destruct (H info) as [facts Hl]; [left|]. rewrite Hl.
  rewrite IH; [reflexivity|]. intros i Hi. apply H. right. assumption.
Qed.

Lemma first_of_find t vs :
  first_of t vs =
    match List.find (fun v => bool_decide (type v = t)) vs with
    | Some v => id v
    | None => []
    end.
Proof.
  unfold first_of. destruct (List.find _ vs) as [v|]; [|reflexivity].
  destruct (id v); reflexivity.
Qed.

Lemma getVersionData_stored m w w' vd :
  getVersionData respond settles m w = (w', inr vd) -> versions_ w' = Some vd.
Proof.
  unfold getVersionData.
  destruct (List.filter _ (versions m)) as [|i0 missing]; [intros [= <- <-]; reflexivity|].
  destruct (all _) as [e|fetched]; [discriminate|].
  intros [= <- <-]. reflexivity.
Qed.

(** With an upstream that answers every request of a missing version by
    the metadata of that version, [getVersionData] succeeds, keeps what
    was in the record and has an entry for every version of the manifest. *)
Lemma getVersionData_total m w :
  (forall info, info ∈ versions m -> cache_of w !! id info = None ->
     exists version, respond (url info) = inr version /\ v_id version = id info) ->
  exists w' vd,
    getVersionData respond settles m w = (w', inr vd)
    /\ (forall k facts, cache_of w !! k = Some facts -> vd !! k = Some facts)
    /\ (forall info, info ∈ versions m -> is_Some (vd !! id info)).
Proof.
  intros Hup. unfold getVersionData. fold (cache_of w).
  set (missing := List.filter (fun info => bool_decide (cache_of w !! id info = None))
                    (versions m)).
  assert (Hmiss : forall info, info ∈ missing <->
                    info ∈ versions m /\ cache_of w !! id info = None).
  { intros info. unfold missing. rewrite !list_elem_of_In, filter_In.
    rewrite bool_decide_eq_true. reflexivity. }
  destruct (all_answers missing) as (fetched & Ha & Hm).
  { intros info Hi. apply Hmiss in Hi as [Hi Hc]. auto. }
  assert (Hkeep : forall k facts, cache_of w !! k = Some facts ->
                    store fetched (cache_of w) !! k = Some facts).
  { intros k facts Hk. rewrite store_other; [assumption|].
    rewrite Hm. intros Hin. apply list_elem_of_In, in_map_iff in Hin as (info & <- & Hin).
    apply list_elem_of_In, Hmiss in Hin as [_ Hc]. congruence. }
  assert (Hall : forall info, info ∈ versions m ->
                   is_Some (store fetched (cache_of w) !! id info)).
  { intros info Hi. apply store_some.
    destruct (cache_of w !! id info) as [facts|] eqn:Hc; [left; eauto|].
    right. rewrite Hm. apply list_elem_of_In, in_map, list_elem_of_In, Hmiss. auto. }
  destruct missing as [|i0 missing'] eqn:Emiss.
  - simpl in Ha. injection Ha as <-. do 2 eexists. split; [reflexivity|].
    split; assumption.
  - rewrite Ha. do 2 eexists. split; [reflexivity|]. split; assumption.
Qed.

(** C9. Whenever [servers] resolves, every version of the manifest has a
    record, the view lists, in the order of the manifest, the versions
    whose record has [hasServer] (no version of an id whose record has
    not, every version whose record has), and [latest.release] is the id
    of the first listed version of type [release], or the empty string;
    and [servers] does resolve when the upstream answers every request of
    a missing version by the metadata of that version, and then the
    records that were in the cache are the ones that are read. *)
Theorem servers_view (m : IVersionManifest) (w : World) :
  (forall w' v, servers respond settles m w = (w', inr v) ->
     exists vd,
       versions_ w' = Some vd
       /\ (forall info, info ∈ versions m -> is_Some (vd !! id info))
       /\ versions v = List.filter (flag hasServer vd) (versions m)
       /\ (forall i facts, vd !! i = Some facts -> hasServer facts = false ->
             forall info, info ∈ versions v -> id info <> i)
       /\ (forall info facts, info ∈ versions m -> vd !! id info = Some facts ->
             hasServer facts = true -> info ∈ versions v)
       /\ latest_release (latest v) =
            match List.find (fun x => bool_decide (type x = release)) (versions v) with
            | Some x => id x
            | None => []
            end)
  /\ ((forall info, info ∈ versions m -> cache_of w !! id info = None ->
         exists version, respond (url info) = inr version /\ v_id version = id info) ->
      exists w' v vd,
        servers respond settles m w = (w', inr v) /\ versions_ w' = Some vd
        /\ (forall k facts, cache_of w !! k = Some facts -> vd !! k = Some facts)).
Proof.
  split.
  - intros w' v. unfold servers, view.
    destruct (getVersionData respond settles m w) as [w1 [e|vd]] eqn:Hg; [discriminate|].
    destruct (filter_by hasServer "hasServer" vd (versions m)) as [e|vs] eqn:Hf;
      [discriminate|].
    intros [= <- <-]. simpl.
    apply filter_by_inr in Hf as [Hall ->].
    exists vd. split; [eapply getVersionData_stored; eassumption|].
    split; [assumption|]. split; [reflexivity|]. split; [|split].
    + intros i facts Hi Hno info Hin <-.
      apply list_elem_of_In, filter_In in Hin as [_ Hflag].
      unfold flag in Hflag. rewrite Hi in Hflag. congruence.
    + intros info facts Hin Hi Hyes.
      apply list_elem_of_In, filter_In. split; [apply list_elem_of_In; assumption|].
      unfold flag. rewrite Hi. assumption.
    + apply first_of_find.
  - intros Hup. destruct (getVersionData_total m w Hup) as (w' & vd & Hg & Hkeep & Hall).
    unfold servers, view. rewrite Hg, (filter_by_total _ _ _ _ Hall).
    do 3 eexists. split; [reflexivity|].
    split; [eapply getVersionData_stored; eassumption | assumption].
Qed.

End ServersView.

(** * [Server] *)

Section ServerFacts.
Import JS Shared Server.

Variable clock : nat -> jsstring.
Variable path_join : jsstring -> jsstring -> jsstring.
Variable EOL : jsstring.

Lemma message_names_state s1 s2 :
  message (ServerStateError s1) = message (ServerStateError s2) -> s1 = s2.
Proof. destruct s1, s2; intros H; try reflexivity; vm_compute in H; discriminate. Qed.

Lemma refused op sv :
  legal (state sv) op = false ->
  perform clock path_join EOL op sv
  = (error_ clock (message (ServerStateError (state sv))) true sv,
     inl (ServerStateError (state sv))).
Proof.
  intros H. destruct op as [io|command|]; unfold perform, legal in *;
    unfold start, execute, stop, rethrowing, bind, when, throw, canStart, canStop;
    destruct (state sv); try discriminate; reflexivity.
Qed.

(** What the steps of the methods do to the fields that the statements
    read. *)
Lemma state_write_log ty m prefix sv : state (write_log clock ty m prefix sv) = state sv.
Proof. reflexivity. Qed.

Lemma logs_write_log ty m prefix sv :
  logs (write_log clock ty m prefix sv)
  = logs sv ++ [{| type := ty; content := stamp clock prefix sv m |}].
Proof. reflexivity. Qed.

Lemma emitted_write_log ty m prefix sv :
  emitted (write_log clock ty m prefix sv)
  = emitted sv ++ [EMessage {| type := ty; content := stamp clock prefix sv m |}].
Proof. reflexivity. Qed.

Lemma state_set_state s sv : state (set_state s sv) = s.
Proof. reflexivity. Qed.

Lemma logs_set_state s sv : logs (set_state s sv) = logs sv.
Proof. reflexivity. Qed.

Lemma emitted_set_state s sv : emitted (set_state s sv) = emitted sv ++ [EStateUpdate s].
Proof. reflexivity. Qed.

Lemma state_emit e sv : state (emit e sv) = state sv.
Proof. reflexivity. Qed.

Lemma logs_emit e sv : logs (emit e sv) = logs sv.
Proof. reflexivity. Qed.

Lemma emitted_emit e sv : emitted (emit e sv) = emitted sv ++ [e].
Proof. reflexivity. Qed.

Lemma state_with_loading n sv : state (with_loading n sv) = state sv.
Proof. reflexivity. Qed.

Lemma logs_with_loading n sv : logs (with_loading n sv) = logs sv.
Proof. reflexivity. Qed.

Lemma emitted_with_loading n sv : emitted (with_loading n sv) = emitted sv.
Proof. reflexivity. Qed.

Lemma state_with_process p sv : state (with_process p sv) = state sv.
Proof. reflexivity. Qed.

Lemma emitted_with_process p sv : emitted (with_process p sv) = emitted sv.
Proof. reflexivity. Qed.

Lemma process_with_process p sv : process (with_process p sv) = p.
Proof. reflexivity. Qed.

Lemma state_write_stdin chunk sv : state (write_stdin chunk sv) = state sv.
Proof. unfold write_stdin. destruct (process sv); reflexivity. Qed.

Lemma execute_running command sv :
  state sv = RUNNING ->
  execute clock EOL command sv
  = (write_stdin EOL (write_stdin command (log clock command true sv)), inr tt).
Proof.
  intros H. unfold execute, rethrowing, bind, when, throw, effect, ret, canStop.
  rewrite H. reflexivity.
Qed.

Lemma stop_running sv :
  state sv = RUNNING ->
  stop clock EOL sv
  = (write_stdin EOL
       (write_stdin (str "stop")
          (log clock (str "Attempting to stop the server...") true sv)), inr tt).
Proof.
  intros H. unfold stop, rethrowing, bind, when, throw, effect, ret, canStop.
  rewrite H. reflexivity.
Qed.

(** [start] does resolve: from a state in which it is legal, when the
    directory exists, the jar has the right version and the process is
    spawned, the server is [STARTING] with its process. *)
Lemma start_resolves io sv v p :
  canStart sv = true -> path_exists io = true ->
  validateVersion_ io (version sv) = (v, inr true) -> spawn_ io = inr p ->
  exists sv',
    start clock path_join io sv = (sv', inr tt)
    /\ state sv' = STARTING /\ process sv' = Some p.
Proof.
  intros Hc He Hv Hs.
  unfold start, rethrowing, bind, when, throw, effect, ret.
  rewrite Hc, He. cbn [negb]. cbv beta iota.
  change (version (log clock (str "Attempting to start server...") true
                     (set_state STARTING sv))) with (version sv).
  rewrite Hv. cbn [negb]. cbv beta iota.
  rewrite Hs. eexists. split; [reflexivity|]. split; reflexivity.
Qed.

(** C1. [start] resolves only in the states [STOPPED] and [CRASHED];
    [execute] and [stop] resolve exactly in the state [RUNNING]. In every
    other state the call throws the [ServerStateError] of the current
    state, whose message tells that state apart from the others, the
    error is logged, and the state, the process and the rest of the
    server are as before; no [stateUpdate] is emitted. *)
Theorem guarded_operations (op : operation) (sv : Server.t) :
  let '(sv', r) := perform clock path_join EOL op sv in
  (r = inr tt -> legal (state sv) op = true)
  /\ (legal (state sv) op = false ->
        r = inl (ServerStateError (state sv))
        /\ message (ServerStateError (state sv))
           = str "Illegal Action: The server is currently "
               ++ toLocaleLowerCase (status_text (state sv)) ++ str "."
        /\ (forall s, message (ServerStateError s) = message (ServerStateError (state sv))
                      -> s = state sv)
        /\ state sv' = state sv /\ process sv' = process sv
        /\ version sv' = version sv /\ properties sv' = properties sv
        /\ exists entry,
             type entry = ERROR
             /\ content entry
                = str "[" ++ clock (length (logs sv)) ++ str "] [MCServerJS] "
                    ++ message (ServerStateError (state sv))
             /\ logs sv' = logs sv ++ [entry] /\ emitted sv' = emitted sv ++ [EMessage entry])
  /\ (match op with
      | OpStart _ => True
      | _ => legal (state sv) op = true -> r = inr tt /\ state sv' = state sv
      end).
Proof.
  destruct (legal (state sv) op) eqn:Hl.
  - destruct (perform clock path_join EOL op sv) as [sv' r] eqn:Hp.
    split; [reflexivity|]. split; [discriminate|].
    destruct op as [io|command|]; [exact I| |]; intros _;
      unfold legal in Hl; destruct (state sv) eqn:Hs; try discriminate;
      simpl perform in Hp.
    + rewrite (execute_running command sv Hs) in Hp. injection Hp as <- <-.
      split; [reflexivity|]. rewrite !state_write_stdin. exact Hs.
    + rewrite (stop_running sv Hs) in Hp. injection Hp as <- <-.
      split; [reflexivity|]. rewrite !state_write_stdin. exact Hs.
  - rewrite (refused op sv Hl).
    split; [discriminate|]. split; [|destruct op; [exact I | discriminate | discriminate]].
    intros _. split; [reflexivity|]. split; [reflexivity|].
    split; [intros s; apply message_names_state|].
    repeat (split; [reflexivity|]).
    exists {| type := ERROR;
              content := stamp clock true sv (message (ServerStateError (state sv))) |}.
    split; [|split; [|split]]; reflexivity.
Qed.


(** C2. When the child process exits, the state becomes [STOPPED] if the
    exit code is 0 and [CRASHED] if it is another code or [null] (the
    process was ended by a signal); the change is emitted, and afterwards
    the server holds no process. *)
Theorem exit_sets_state (code : option Z) (signal : option jsstring) (sv : Server.t) :
  let sv' := on_exit clock code signal sv in
  state sv' = (if bool_decide (code = Some 0%Z) then STOPPED else CRASHED)
  /\ (code = Some 0%Z -> state sv' = STOPPED)
  /\ (forall c, code = Some c -> c <> 0%Z -> state sv' = CRASHED)
  /\ (code = None -> state sv' = CRASHED)
  /\ process sv' = None
  /\ EStateUpdate (state sv') ∈ emitted sv'.
Proof.
  cbv zeta. assert (Hstate : state (on_exit clock code signal sv)
                    = if bool_decide (code = Some 0%Z) then STOPPED else CRASHED).
  { unfold on_exit. rewrite state_with_process.
    destruct code as [c|]; [destruct (bool_decide (c = 0%Z))|];
      unfold log, error_; rewrite state_write_log, state_set_state; reflexivity. }
  split; [exact Hstate|]. split; [|split; [|split; [|split]]].
  - intros ->. rewrite Hstate. reflexivity.
  - intros c -> Hc. rewrite Hstate. rewrite bool_decide_eq_false_2; [reflexivity|].
    congruence.
  - intros ->. rewrite Hstate. reflexivity.
  - apply process_with_process.
  - rewrite Hstate. unfold on_exit. rewrite emitted_with_process.
    destruct code as [c|]; [destruct (bool_decide (c = 0%Z))|];
      unfold log, error_; rewrite emitted_write_log, emitted_set_state;
      rewrite !elem_of_app, !elem_of_cons; auto 7.
Qed.

Lemma done_line_tests :
  test WarnPattern done_line = false /\ test ErrorPattern done_line = false
  /\ test DonePattern done_line = true /\ messages_of done_line = [done_line].
Proof. vm_compute. auto. Qed.

(** C3. The chunk that is this one line is one message; it matches
    neither [WarnPattern] nor [ErrorPattern] and is logged as [INFO], it
    matches [DonePattern] and the state becomes [RUNNING], whatever it
    was. *)
Theorem done_line_running (sv : Server.t) :
  let sv' := on_stdout_data clock done_line sv in
  test WarnPattern done_line = false
  /\ test ErrorPattern done_line = false
  /\ test DonePattern done_line = true
  /\ messages_of done_line = [done_line]
  /\ state sv' = RUNNING
  /\ exists running loading_,
       logs sv' = logs sv ++ [{| type := INFO; content := done_line |}; running; loading_]
       /\ type running = INFO /\ type loading_ = INFO
       /\ emitted sv'
          = emitted sv ++ [EMessage {| type := INFO; content := done_line |};
                           EMessage running; EStateUpdate RUNNING; EMessage loading_].
Proof.
  cbv zeta. destruct done_line_tests as (Hw & He & Hd & Hm).
  repeat (split; [assumption|]).
  unfold on_stdout_data. rewrite Hm. cbn [fold_left].
  unfold on_message. rewrite Hw, He, Hd. unfold log.
  split.
  - rewrite state_with_loading, state_write_log. apply state_set_state.
  - rewrite logs_with_loading, emitted_with_loading.
    rewrite !logs_write_log, !emitted_write_log, logs_set_state, emitted_set_state.
    rewrite !logs_write_log, !emitted_write_log.
    rewrite <- !app_assoc. cbn [app]. do 2 eexists.
    split; [reflexivity|]. split; [reflexivity|]. split; reflexivity.
Qed.

Lemma exec_word_i (w : jsstring) (post : jsstring) :
  exists r, exec (List.map (fun x => Cls (CCharI x) One) w) (w ++ post) = Some r.
Proof.
  induction w as [|x w [r IH]]; simpl List.map.
  - eexists. reflexivity.
  - rewrite exec_one. simpl app. unfold one. unfold cls_mem at 1.
    rewrite N.eqb_refl, IH. eexists. reflexivity.
Qed.

Lemma search_app p pre s r :
  exec p s = Some r -> exists r', search p (pre ++ s) = Some r'.
Proof.
  intros H. induction pre as [|x pre [r' IH]].
  - exists r. destruct s; simpl; rewrite H; reflexivity.
  - simpl app. simpl search. destruct (exec p (x :: pre ++ s)); simpl; eauto.
Qed.

Lemma test_contains_i (w : string) (hay : jsstring) :
  contains (str w) hay -> test {| bol := false; atoms := lit_i w |} hay = true.
Proof.
  intros (pre & post & ->). unfold test, rmatch. simpl bol. cbv iota. simpl atoms.
  destruct (exec_word_i (str w) post) as [r Hr].
  destruct (search_app _ pre _ _ Hr) as [r' Hr'].
  unfold lit_i. rewrite Hr'. reflexivity.
Qed.

(** C10. A message in which both "/WARN]" and "/ERROR]" occur matches
    both patterns and is logged once, as [WARN]: the pattern of the
    warnings is tested first. Nothing that the listener logs for the
    message is an [ERROR]. *)
Theorem warn_before_error (record : jsstring) (sv : Server.t) :
  contains (str "/WARN]") record ->
  contains (str "/ERROR]") record ->
  test WarnPattern record = true
  /\ test ErrorPattern record = true
  /\ exists rest,
       logs (on_message clock record sv)
       = logs sv ++ {| type := WARN; content := record |} :: rest
       /\ Forall (fun entry => type entry <> ERROR) rest.
Proof.
  intros Hw He.
  apply (test_contains_i "/WARN]") in Hw. apply (test_contains_i "/ERROR]") in He.
  change (test WarnPattern record = true) in Hw.
  change (test ErrorPattern record = true) in He.
  split; [assumption|]. split; [assumption|].
  unfold on_message. rewrite Hw. unfold warn, log.
  destruct (test DonePattern record); [|destruct (test StopPattern record);
    [|destruct (test EulaPattern record)]];
    rewrite ?logs_with_loading, ?logs_emit, ?logs_set_state, ?logs_write_log,
      ?logs_set_state, ?logs_write_log, ?logs_write_log;
    rewrite <- ?app_assoc; cbn [app stamp]; eexists; (split; [reflexivity|]);
    repeat constructor; discriminate.
Qed.

End ServerFacts.

Section AcceptEula.
Import JS Shared Server.

Variable path_join : jsstring -> jsstring -> jsstring.

Lemma search_cons_none p x s :
  search p (x :: s) = None -> exec p (x :: s) = None /\ search p s = None.
Proof.
  simpl. destruct (exec p (x :: s)); simpl; [discriminate | auto].
Qed.

Lemma replace_none p repl s : search p s = None -> replace_go p repl 0 s = s.
Proof.
  induction s as [|x s IH]; intros H.
  - simpl in *. destruct (exec p []) as [[? ?]|]; [discriminate | reflexivity].
  - apply search_cons_none in H as [He Hs].
    cbn [replace_go]. rewrite He, (IH Hs). reflexivity.
Qed.

(** No match of the pattern starts in a text in which "eula=" does not
    occur, even when "eula=" follows the text. *)
Lemma eula_not_across x pre rest :
  search (lit_i "eula=") (x :: pre) = None ->
  exec (atoms EulaLinePattern) (x :: pre ++ str "eula=" ++ rest) = None.
Proof.
  intros H. apply search_cons_none in H as [H _].
  destruct pre as [|x1 [|x2 [|x3 [|x4 pre]]]];
    cbn in H |- *;
    repeat match goal with
           | |- context [N.eqb ?a ?b] => destruct (N.eqb a b) eqn:?; cbn in *
           end;
    try reflexivity; try discriminate.
Qed.

Lemma exec_eula_line b post :
  exec (atoms EulaLinePattern) (eula_line b ++ post)
  = Some (List.map (fun x => [x]) (str "eula=") ++ [bool_text b], post).
Proof. destruct b; vm_compute; reflexivity. Qed.

Lemma replace_go_skip p repl m s :
  replace_go p repl (length m) (m ++ s) = replace_go p repl 0 s.
Proof. induction m as [|x m IH]; [reflexivity | exact IH]. Qed.

Lemma replace_go_none p repl x s :
  exec p (x :: s) = None -> replace_go p repl 0 (x :: s) = x :: replace_go p repl 0 s.
Proof. intros He. simpl. rewrite He. reflexivity. Qed.

Lemma replace_go_match p repl x s segs rest n :
  exec p (x :: s) = Some (segs, rest) -> length (concat segs) = S n ->
  replace_go p repl 0 (x :: s) = repl segs ++ replace_go p repl n s.
Proof. intros He Hn. simpl. rewrite He, Hn. reflexivity. Qed.

Lemma replace_eula_line accept pre b post :
  search (lit_i "eula=") pre = None ->
  search (atoms EulaLinePattern) post = None ->
  replace_all EulaLinePattern (fun _ => eula_line accept) (pre ++ eula_line b ++ post)
  = pre ++ eula_line accept ++ post.
Proof.
  intros Hpre Hpost. unfold replace_all.
  induction pre as [|x pre IH].
  - pose proof (exec_eula_line b post) as He.
    assert (Hs : exists x m, eula_line b = x :: m
                   /\ length (concat (List.map (fun x => [x]) (str "eula=")
                                        ++ [bool_text b])) = S (length m)).
    { destruct b; do 2 eexists; split; reflexivity. }
    destruct Hs as (x & m & Hb & Hn). rewrite Hb in He |- *.
    cbn [app] in He |- *.
    rewrite (replace_go_match _ _ _ _ _ _ _ He Hn), replace_go_skip.
    rewrite (replace_none _ _ _ Hpost). reflexivity.
  - assert (Hx : exec (atoms EulaLinePattern) (x :: pre ++ eula_line b ++ post) = None)
      by exact (eula_not_across x pre (bool_text b ++ post) Hpre).
    apply search_cons_none in Hpre as [_ Hpre].
    change ((x :: pre) ++ eula_line b ++ post) with (x :: (pre ++ eula_line b ++ post)).
    rewrite (replace_go_none _ _ _ _ Hx), (IH Hpre). reflexivity.
Qed.

(** Whatever the file holds, [acceptEula] writes the file, resolves to
    [accept] and leaves the server as it is; without the file it rejects. *)
Lemma acceptEula_resolves accept fs sv content :
  fs !! eula path_join sv = Some content ->
  exists content',
    acceptEula path_join accept fs sv
    = (<[eula path_join sv := content']> fs, sv, inr accept).
Proof.
  intros H. unfold acceptEula, readFile. rewrite H. eexists. reflexivity.
Qed.

Lemma acceptEula_rejects accept fs sv :
  fs !! eula path_join sv = None ->
  exists err, acceptEula path_join accept fs sv = (fs, sv, inl err).
Proof.
  intros H. unfold acceptEula, readFile. rewrite H. eexists. reflexivity.
Qed.


End AcceptEula.

Section Witnesses.
Import JS Shared Server Host.


End Witnesses.

(** * The statements at concrete inputs *)

Section Examples.
Import JS Shared Host.

(** A server that is starting refuses [stop]. *)
Lemma guarded_operations_witness :
  let sv := Server.with_state STARTING (Server.new slash None (str "java")) in
  snd (Server.stop noon [LF] sv) = inl (ServerStateError STARTING)
  /\ Server.state (fst (Server.stop noon [LF] sv)) = STARTING
  /\ Server.process (fst (Server.stop noon [LF] sv)) = None.
Proof.
  cbv zeta.
  pose proof (guarded_operations noon slash [LF] Server.OpStop
                (Server.with_state STARTING (Server.new slash None (str "java")))) as H.
  change (Server.perform noon slash [LF] Server.OpStop) with (Server.stop noon [LF]) in H.
  destruct (Server.stop noon [LF] _) as [sv' r].
  destruct H as (_ & H & _).
  destruct (H eq_refl) as (Hr & _ & _ & Hs & Hp & _).
  simpl. split; [exact Hr|]. split; [exact Hs | exact Hp].
Defined.

(** Exit code 1 is a crash. *)
Lemma exit_sets_state_witness :
  Server.state (Server.on_exit noon (Some 1%Z) None (Server.new slash None (str "java")))
  = CRASHED.
Proof.
  destruct (exit_sets_state noon (Some 1%Z) None (Server.new slash None (str "java")))
    as (_ & _ & H & _).
  apply (H 1%Z); [reflexivity | discriminate].
Defined.

(** A warning in which the mark of an error occurs. *)
Lemma warn_before_error_witness :
  let record := str "[12:34:56] [Server thread/WARN]: see /ERROR] above" in
  exists rest,
    Server.logs (Server.on_message noon record (Server.new slash None (str "java")))
    = {| type := WARN; content := record |} :: rest
    /\ Forall (fun entry => type entry <> ERROR) rest.
Proof.
  cbv zeta.
  destruct (warn_before_error noon
              (str "[12:34:56] [Server thread/WARN]: see /ERROR] above")
              (Server.new slash None (str "java")))
    as (_ & _ & rest & H1 & H2).
  - exists (str "[12:34:56] [Server thread"), (str ": see /ERROR] above"). reflexivity.
  - exists (str "[12:34:56] [Server thread/WARN]: see "), (str " above"). reflexivity.
  - exists rest. split; [exact H1 | exact H2].
Defined.

(** Two reads of the getter around the time the promise settles. *)
Lemma manifest_requested_once_witness :
  Versions.requests
    (snd (Versions.run [Versions.GetManifest; Versions.Settle 0; Versions.GetManifest]
            Versions.init))
  = [Versions.manifest_url]
  /\ fst (Versions.run [Versions.GetManifest; Versions.Settle 0; Versions.GetManifest]
            Versions.init)
     = [0%nat; 0%nat].
Proof.
  pose proof (manifest_requested_once
                [Versions.GetManifest; Versions.Settle 0; Versions.GetManifest]
                Versions.init) as H.
  destruct (Versions.run _ Versions.init) as [ps w'] eqn:Hr.
  destruct H as (sent & H1 & _ & _ & H4 & _).
  injection Hr as <- <-. simpl fst. simpl snd. split; [|reflexivity].
  rewrite H1, H4; [reflexivity | reflexivity | discriminate].
Defined.

End Examples.

Section ServersExample.
Import JS Shared Versions Host.

Lemma servers_view_witness :
  exists w' v vd,
    servers upstream in_turn two_versions init = (w', inr v) /\ versions_ w' = Some vd
    /\ (forall k facts, cache_of init !! k = Some facts -> vd !! k = Some facts).
Proof.
  apply (proj2 (servers_view upstream in_turn two_versions init)).
  intros info Hin _.
  apply elem_of_cons in Hin as [-> | Hin].
  - eexists. split; reflexivity.
  - apply list_elem_of_singleton in Hin as ->. eexists. split; reflexivity.
Defined.

(** The view of that manifest leaves [1.20] out, and its latest release
    is [1.19]. *)
Example servers_without_1_20 :
  match servers upstream in_turn two_versions init with
  | (_, inr v) =>
      versions v = [info_of "1.19"] /\ latest_release (latest v) = str "1.19"
  | (_, inl _) => False
  end.
Proof. vm_compute. split; reflexivity. Qed.

End ServersExample.

Section Legacy.
Import JS Shared.

Variable path_join : jsstring -> jsstring -> jsstring.
Variable start : Server.M unit.

(** In the earlier revision [acceptEula(false)] writes nothing and
    resolves to [undefined], and [acceptEula(true)] ends in [start]. *)
Remark legacy_acceptEula_declined fs sv :
  LegacyServer.acceptEula path_join start false fs sv = (fs, sv, inr tt).
Proof. reflexivity. Qed.

Remark legacy_acceptEula_starts fs sv content :
  fs !! Server.eula path_join sv = Some content ->
  snd (fst (LegacyServer.acceptEula path_join start true fs sv)) = fst (start sv).
Proof.
  intros H. unfold LegacyServer.acceptEula, readFile. rewrite H. simpl.
  destruct (start sv). reflexivity.
Qed.

End Legacy.

(** * More about [Properties] *)

Section PropertiesMore.
Import JS Shared Properties.

Lemma this_eta (this : Properties.t) : {| path := path this; data := data this |} = this.
Proof. destruct this. reflexivity. Qed.

Lemma property_eta (p : IProperty) : {| name := name p; value := value p |} = p.
Proof. destruct p. reflexivity. Qed.

Lemma find_by_name_one n v m :
  find_by_name m [{| name := n; value := v |}]
  = if bool_decide (n = m) then Some {| name := n; value := v |} else None.
Proof. reflexivity. Qed.

Lemma set_line_one_other n v line :
  (forall l, line = PObject l -> name l <> n) ->
  set_line [{| name := n; value := v |}] line = line.
Proof.
  intros H. destruct line as [l| |s]; try reflexivity. cbn [set_line].
  rewrite find_by_name_one, bool_decide_eq_false_2; [reflexivity|].
  intros E. exact (H l eq_refl (eq_sym E)).
Qed.

Lemma set_line_one_same n v l :
  name l = n -> set_line [{| name := n; value := v |}] (PObject l)
                = PObject {| name := n; value := v |}.
Proof.
  intros H. cbn [set_line]. rewrite find_by_name_one, bool_decide_eq_true_2 by congruence.
  reflexivity.
Qed.

(** The properties after [setProperty], looked up by the name that was set. *)
Lemma find_after_set n v lines :
  (exists l, PObject l ∈ lines /\ name l = n) ->
  find_by_name n (only_properties (List.map (set_line [{| name := n; value := v |}]) lines))
  = Some {| name := n; value := v |}.
Proof.
  induction lines as [|line lines IH]; intros (l & Hin & Hn).
  - inversion Hin.
  - rewrite List.map_cons. destruct line as [l0| |s].
    + destruct (decide (name l0 = n)) as [E | E].
      * rewrite (set_line_one_same n v l0 E). cbn [only_properties].
        unfold find_by_name. cbn [find name].
        rewrite bool_decide_eq_true_2 by reflexivity. reflexivity.
      * rewrite set_line_one_other by (intros ? [= <-]; exact E).
        cbn [only_properties]. unfold find_by_name. cbn [find].
        rewrite bool_decide_eq_false_2 by exact E.
        apply IH. apply elem_of_cons in Hin as [Hin | Hin]; [congruence | eauto].
    + apply IH. apply elem_of_cons in Hin as [Hin | Hin]; [discriminate | eauto].
    + apply IH. apply elem_of_cons in Hin as [Hin | Hin]; [discriminate | eauto].
Qed.

(** X1. When a line of the store has the name, [setProperty(name, value)]
    resolves to the pair, [getProperty(name)] then resolves to the pair
    without reading the file, every line of that name carries the value,
    and the lines of other names are as before. *)
Theorem setProperty_getProperty (EOL n v : jsstring) (fs : FS) (this : Properties.t) :
  (exists l, PObject l ∈ data this /\ name l = n) ->
  let '(fs', this', ret) := setProperty EOL n v fs this in
  ret = Some {| name := n; value := v |}
  /\ (forall fs'', getProperty fs'' this' n = (this', inr (Some {| name := n; value := v |})))
  /\ (forall l', PObject l' ∈ data this' -> name l' = n -> value l' = v)
  /\ (forall i l0, data this !! i = Some (PObject l0) -> name l0 <> n ->
        data this' !! i = Some (PObject l0)).
Proof.
  intros Hex. unfold setProperty, setProperties. cbv zeta.
  set (lines' := List.map (set_line [{| name := n; value := v |}]) (data this)).
  pose proof (find_after_set n v (data this) Hex) as Hfind. fold lines' in Hfind.
  split; [exact Hfind|]. split; [|split].
  - intros fs''. unfold getProperty, getProperties. simpl data.
    assert (Hlen : (length lines' =? 0)%nat = false).
    { destruct Hex as (l & Hin & _). unfold lines'. rewrite length_map.
      destruct (data this); [inversion Hin | reflexivity]. }
    rewrite Hlen. simpl. rewrite Hfind. reflexivity.
  - intros l' Hin Hn. simpl data in Hin. unfold lines' in Hin.
    apply list_elem_of_In, in_map_iff in Hin as (line & Hset & _).
    destruct line as [l0| |s]; try discriminate. cbn [set_line] in Hset.
    rewrite find_by_name_one in Hset.
    destruct (bool_decide (n = name l0)) eqn:Hb.
    + injection Hset as <-. reflexivity.
    + injection Hset as <-. apply bool_decide_eq_false in Hb. congruence.
  - intros i l0 Hi Hne. simpl data. unfold lines'.
    change (List.map ?f ?l) with (f <$> l). rewrite list_lookup_fmap, Hi.
    cbn [fmap option_fmap option_map]. rewrite set_line_one_other; [reflexivity|].
    intros ? [= <-]. exact Hne.
Qed.

Lemma setProperty_getProperty_witness :
  let this := {| path := str "server.properties";
                 data := [PString (str "#c");
                          PObject {| name := str "motd"; value := str "hi" |}] |} in
  snd (setProperty [LF] (str "motd") (str "ho") ∅ this)
  = Some {| name := str "motd"; value := str "ho" |}.
Proof.
  cbv zeta.
  pose proof (setProperty_getProperty [LF] (str "motd") (str "ho") ∅
                {| path := str "server.properties";
                   data := [PString (str "#c");
                            PObject {| name := str "motd"; value := str "hi" |}] |}) as H.
  destruct (setProperty _ _ _ _ _) as [[fs' this'] ret].
  apply H. eexists. split; [right; left | reflexivity].
Defined.

(** X2. When no line of the store has the name, [setProperty(name, value)]
    resolves to [undefined] and the lines in memory stay as they are; the
    file is written all the same, from the lines in memory. *)
Theorem setProperty_unknown (EOL n v : jsstring) (fs : FS) (this : Properties.t) :
  (forall l, PObject l ∈ data this -> name l <> n) ->
  setProperty EOL n v fs this
  = (<[path this := join EOL (List.map render_line (data this))]> fs, this, None).
Proof.
  intros H. unfold setProperty, setProperties, writeFile. cbv zeta.
  assert (Hmap : List.map (set_line [{| name := n; value := v |}]) (data this) = data this).
  { rewrite <- (List.map_id (data this)) at 2. apply List.map_ext_in.
    intros line Hin. apply set_line_one_other. intros l ->.
    apply H, list_elem_of_In. assumption. }
  rewrite Hmap, this_eta. f_equal.
  unfold find_by_name. destruct (find _ _) as [p|] eqn:Hf; [|reflexivity].
  apply find_some in Hf as [Hin Hn]. apply bool_decide_eq_true in Hn.
  exfalso. apply (H p); [|assumption].
  clear -Hin. induction (data this) as [|line lines IH]; [inversion Hin|].
  destruct line as [l0| |s]; simpl in Hin.
  - destruct Hin as [-> | Hin]; [left | right; auto].
  - right. auto.
  - right. auto.
Qed.

Lemma setProperty_unknown_witness :
  let this := {| path := str "server.properties";
                 data := [PObject {| name := str "motd"; value := str "hi" |}] |} in
  setProperty [LF] (str "pvp") (str "true") ∅ this
  = ({[ str "server.properties" := str "motd=hi" ]}, this, None).
Proof.
  cbv zeta. rewrite setProperty_unknown.
  - reflexivity.
  - intros l Hin. apply list_elem_of_singleton in Hin. injection Hin as ->. discriminate.
Defined.

Lemma set_line_twice properties line :
  set_line properties (set_line properties line) = set_line properties line.
Proof.
  destruct line as [l| |s]; try reflexivity. simpl.
  destruct (find_by_name (name l) properties) as [prop|] eqn:Hf; simpl.
  - pose proof Hf as Hf'. unfold find_by_name in Hf'.
    apply find_some in Hf' as [_ Hn]. apply bool_decide_eq_true in Hn.
    rewrite Hn, Hf. reflexivity.
  - rewrite Hf. reflexivity.
Qed.

(** X3. [setProperties] is idempotent: a second call with the same pairs
    changes neither the lines in memory nor the file, and resolves to the
    same properties. *)
Theorem setProperties_idempotent (EOL : jsstring) (properties : list IProperty)
    (fs : FS) (this : Properties.t) :
  let '(fs1, this1, ret1) := setProperties EOL properties fs this in
  setProperties EOL properties fs1 this1 = (fs1, this1, ret1).
Proof.
  unfold setProperties, writeFile. cbv zeta. cbn [path data].
  assert (E : List.map (set_line properties) (List.map (set_line properties) (data this))
              = List.map (set_line properties) (data this)).
  { rewrite List.map_map. apply List.map_ext. apply set_line_twice. }
  rewrite E, insert_insert_eq. reflexivity.
Qed.

(** X4. [getProperties] reads the file at most once: with no line in
    memory and the file there, it loads the file; from then on it answers
    from memory, whatever becomes of the file. *)
Theorem getProperties_reads_once (fs : FS) (this : Properties.t) (content : jsstring) :
  data this = [] ->
  fs !! path this = Some content ->
  exists this1 properties,
    getProperties fs this = (this1, inr properties)
    /\ data this1 = List.map load_line (split LF (normalize_newlines content))
    /\ forall fs', getProperties fs' this1 = (this1, inr properties).
Proof.
  intros Hd Hf. unfold getProperties at 1. unfold existsSync, loadProperties, readFile.
  rewrite Hd, Hf. simpl.
  do 2 eexists. split; [reflexivity|]. split; [reflexivity|].
  intros fs'. unfold getProperties. simpl data. rewrite length_map.
  pose proof (split_not_nil LF (normalize_newlines content)) as Hne.
  destruct (split LF (normalize_newlines content)); [congruence | reflexivity].
Qed.

Lemma getProperties_reads_once_witness :
  let file := str "server.properties" in
  exists this1 properties,
    getProperties {[ file := str "motd=hi" ]} (Properties.new file) = (this1, inr properties)
    /\ data this1 = List.map load_line (split LF (normalize_newlines (str "motd=hi")))
    /\ forall fs', getProperties fs' this1 = (this1, inr properties).
Proof.
  cbv zeta.
  apply (getProperties_reads_once _ (Properties.new (str "server.properties"))).
  - reflexivity.
  - apply lookup_singleton_eq.
Defined.

(** X5. Without the file and with no line in memory, [getProperty]
    resolves to [undefined] and loads nothing, while [loadProperties]
    rejects; the store stays empty, so that a later call looks for the
    file again. *)
Theorem getProperty_without_file (fs : FS) (this : Properties.t) (n : jsstring) :
  data this = [] ->
  fs !! path this = None ->
  getProperty fs this n = (this, inr None)
  /\ getProperties fs this = (this, inr [])
  /\ exists err, loadProperties fs this = (this, inl err).
Proof.
  intros Hd Hf. unfold getProperty, getProperties, existsSync, loadProperties, readFile.
  rewrite Hd, Hf. simpl. eauto.
Qed.

Lemma getProperty_without_file_witness :
  getProperty ∅ (Properties.new (str "server.properties")) (str "motd")
  = (Properties.new (str "server.properties"), inr None).
Proof.
  apply (getProperty_without_file ∅ (Properties.new (str "server.properties"))).
  - reflexivity.
  - apply lookup_empty.
Defined.

(** A text that is cut before a character that the first part has not. *)
Lemma app_cut (x : N) (seg : jsstring) : forall l1 l2 rest,
  l1 ++ x :: l2 = seg ++ rest -> x ∉ seg ->
  exists n', l1 = seg ++ n' /\ rest = n' ++ x :: l2.
Proof.
  induction seg as [|y seg IH]; intros l1 l2 rest E Hx.
  - exists l1. simpl in E. auto.
  - destruct l1 as [|z l1]; simpl in E.
    + injection E as <- _. exfalso. apply Hx. left.
    + injection E as -> E. destruct (IH l1 l2 rest E) as (n' & -> & ->).
      * intros H. apply Hx. right. assumption.
      * exists n'. auto.
Qed.

Lemma exec_key_value_at_equals v : 61 ∉ v -> exec key_value (61 :: v) = None.
Proof.
  intros Hno. unfold key_value. rewrite exec_plus.
  destruct (many CDot _ v) as [[seg r]|] eqn:Hm; [|destruct (cls_mem CDot 61); reflexivity].
  apply many_sound in Hm as (rest & -> & _ & Hk & _).
  apply exec_value in Hk as (value & -> & _). exfalso. apply Hno.
  apply elem_of_app. right. left.
Qed.

(** Where the pattern finds no name and value before an equals sign, it
    finds none when the text after the sign is replaced by one without
    equals sign. *)
Lemma exec_unindented_none n v v' :
  all_in CDot n -> all_in CDot v -> 61 ∉ v' ->
  exec unindented (n ++ 61 :: v) = None -> exec unindented (n ++ 61 :: v') = None.
Proof.
  intros Hn Hv Hno. unfold unindented. rewrite !exec_not_ahead.
  destruct n as [|y n].
  - intros _. simpl app. change (cls_mem (CChar 35) 61) with false. cbv iota.
    rewrite exec_key_value_at_equals by assumption. reflexivity.
  - simpl app. cbv beta iota. destruct (cls_mem (CChar 35) y); [reflexivity|]. revert Hn.
    change (y :: n ++ 61 :: v) with ((y :: n) ++ 61 :: v).
    intros Hn. destruct (exec_key_value_some (y :: n) v) as [r ->];
      [discriminate | assumption.. |].
    discriminate.
Qed.

Lemma white_space_not_equals w : all_in CSpace w -> 61 ∉ w.
Proof.
  intros Hw Hin. unfold all_in in Hw. rewrite Forall_forall in Hw.
  specialize (Hw _ Hin). discriminate.
Qed.

(** The line written for a loaded name and a new value without equals
    sign and line terminator is loaded as that name and the new value. *)
Lemma load_line_new_value n v v' :
  load_line (n ++ 61 :: v) = PObject {| name := n; value := v |} ->
  n <> [] -> head n <> Some 35 -> all_in CDot n -> all_in CDot v ->
  all_in CDot v' -> 61 ∉ v' ->
  load_line (n ++ 61 :: v') = PObject {| name := n; value := v' |}.
Proof.
  intros Hl Hne Hh Hn Hv Hv' Hno.
  assert (Hhead : forall t, head (n ++ t) <> Some 35).
  { intros t. destruct n; [congruence | exact Hh]. }
  assert (Hmax : longest CSpace (exec unindented) (n ++ 61 :: v)).
  { unfold load_line in Hl. rewrite not_comment in Hl by apply Hhead.
    unfold rmatch in Hl. simpl bol in Hl. cbv iota in Hl.
    change (atoms PropertyPattern) with (Cls CSpace Star :: unindented) in Hl.
    rewrite exec_star in Hl.
    destruct (many CSpace _ (n ++ 61 :: v)) as [[w r0]|] eqn:Hm; [|discriminate].
    apply many_sound in Hm as (rest & E & Hw & Hk & Hmax).
    apply exec_unindented_inv in Hk as (n0 & v0 & -> & _ & _ & _ & _ & ->).
    simpl in Hl. injection Hl as -> ->.
    assert (w = []) as ->.
    { apply (f_equal (@length N)) in E. rewrite !length_app in E.
      destruct w; [reflexivity | simpl in E; lia]. }
    exact Hmax. }
  assert (Hk : exec unindented (n ++ 61 :: v') = Some ([[]; n; [61]; v'; []], [])).
  { unfold unindented. rewrite exec_not_ahead.
    rewrite exec_key_value_last by assumption.
    destruct n as [|x n]; [congruence|]. simpl app. unfold cls_mem.
    destruct (x =? 35) eqn:Hx; [|reflexivity].
    apply N.eqb_eq in Hx as ->. simpl in Hh. congruence. }
  assert (Hmax' : longest CSpace (exec unindented) (n ++ 61 :: v')).
  { intros seg' rest' Hne' E Hs.
    destruct (app_cut 61 seg' n v' rest' E (white_space_not_equals _ Hs)) as (n' & -> & ->).
    apply all_in_app in Hn as [_ Hn'].
    apply (exec_unindented_none n' v v' Hn' Hv Hno).
    apply (Hmax seg' (n' ++ 61 :: v) Hne'); [|assumption].
    rewrite <- app_assoc. reflexivity. }
  unfold load_line. rewrite not_comment by apply Hhead.
  unfold rmatch. simpl bol. cbv iota.
  change (atoms PropertyPattern) with (Cls CSpace Star :: unindented).
  rewrite exec_star.
  rewrite (many_intro CSpace _ [] _ _ (all_in_nil _) Hk Hmax'
           : many CSpace _ (n ++ 61 :: v') = _).
  reflexivity.
Qed.

(** A line in memory after [loadProperties] and [setProperties] is read
    back from the text written for it. *)
Lemma set_line_reloads properties l :
  Forall (fun p => all_in CDot (value p) /\ 61 ∉ value p) properties ->
  let d := set_line properties (load_line l) in
  clean (render_line d) /\ load_line (render_line d) = d.
Proof.
  intros Hp d. subst d.
  pose proof (render_load_clean l) as Hc. pose proof (load_render_load l) as Hr.
  destruct (load_line_loaded l) as [t E Hne Ht | w n v E Hw Hne Hh Hn Hv Hl |];
    [auto | | auto].
  cbn [set_line name].
  destruct (find_by_name n properties) as [prop|] eqn:Hf; [|auto].
  apply find_by_name_some in Hf as [Hin Hname].
  rewrite Forall_forall in Hp. destruct (Hp _ Hin) as [Hv' Hno].
  destruct prop as [n' v']. simpl in Hname, Hv', Hno. subst n'.
  cbn [render_line name value]. change (str "=" ++ v') with (61 :: v'). split.
  - apply clean_app. split; [apply dot_clean; assumption|].
    constructor; [unfold LF, CR; split; discriminate | apply dot_clean; assumption].
  - apply (load_line_new_value n v v'); assumption.
Qed.

(** X6. After [loadProperties], [setProperties] with values that hold no
    equals sign and no line terminator writes a file from which
    [loadProperties] reads the lines in memory again: what was set is
    what a restart of the program finds. *)
Theorem setProperties_reload (EOL : jsstring) (properties : list IProperty)
    (fs : FS) (this : Properties.t) (content : jsstring) :
  is_EOL EOL ->
  fs !! path this = Some content ->
  Forall (fun p => all_in CDot (value p) /\ 61 ∉ value p) properties ->
  exists this1 fs2 this2 ret,
    loadProperties fs this = (this1, inr tt)
    /\ setProperties EOL properties fs this1 = (fs2, this2, ret)
    /\ loadProperties fs2 this2 = (this2, inr tt)
    /\ forall fs3, getProperties fs3 this2 = (this2, inr ret).
Proof.
  intros HE Hfile Hp.
  set (lines := split LF (normalize_newlines content)).
  set (this1 := {| path := path this; data := List.map load_line lines |}).
  set (newData := List.map (set_line properties) (data this1)).
  set (written := join EOL (List.map render_line newData)).
  exists this1, (writeFile fs (path this) written),
    {| path := path this; data := newData |}, (only_properties newData).
  assert (Hlines : lines <> []) by apply split_not_nil.
  assert (Hall : forall d, In d newData ->
                   clean (render_line d) /\ load_line (render_line d) = d).
  { intros d Hd. unfold newData, this1 in Hd. simpl data in Hd.
    apply in_map_iff in Hd as (d0 & <- & Hd).
    apply in_map_iff in Hd as (l & <- & _).
    apply (set_line_reloads properties l Hp). }
  assert (Hnorm : normalize_newlines written = join [LF] (List.map render_line newData)).
  { apply (norm_join EOL _ HE). rewrite Forall_forall. intros l Hl.
    apply list_elem_of_In, in_map_iff in Hl as (d & <- & Hd). apply Hall, Hd. }
  split; [|split; [|split]].
  - unfold loadProperties, readFile. rewrite Hfile. reflexivity.
  - reflexivity.
  - unfold loadProperties, readFile. simpl path.
    unfold writeFile. rewrite lookup_insert_eq. rewrite Hnorm.
    rewrite split_join.
    + f_equal. f_equal. rewrite List.map_map.
      rewrite <- (List.map_id newData) at 2. apply List.map_ext_in.
      intros d Hd. apply Hall, Hd.
    + unfold newData, this1. simpl data. destruct lines; [congruence | discriminate].
    + rewrite Forall_forall. intros l Hl.
      apply list_elem_of_In, in_map_iff in Hl as (d & <- & Hd).
      apply clean_no_lf, Hall, Hd.
  - intros fs3. unfold getProperties. simpl data.
    assert (Hlen : (length newData =? 0)%nat = false).
    { unfold newData, this1. simpl data. rewrite !length_map.
      destruct lines; [congruence | reflexivity]. }
    rewrite Hlen. reflexivity.
Qed.

(** X7. A value with an equals sign is not read back: the line written
    for the name [n] and the value [a=b] is loaded as the name [n=a] and
    the value [b]. *)
Theorem render_line_moves_separator (n a b : jsstring) :
  n <> [] ->
  (forall x, head n = Some x -> is_white_space x = false /\ x <> 35) ->
  all_in CDot n -> all_in CDot a -> all_in CDot b -> 61 ∉ b ->
  load_line (render_line (PObject {| name := n; value := a ++ 61 :: b |}))
  = PObject {| name := n ++ 61 :: a; value := b |}.
Proof.
  intros Hne Hh Hn Ha Hb Hno. cbn [render_line name value].
  change (str "=" ++ a ++ 61 :: b) with (61 :: a ++ 61 :: b).
  change (n ++ 61 :: a ++ 61 :: b) with (n ++ (61 :: a) ++ 61 :: b).
  rewrite app_assoc.
  apply (load_line_last_equals [] (n ++ 61 :: a) b).
  - apply all_in_nil.
  - destruct n; discriminate.
  - intros x Hx. apply Hh. destruct n; [congruence | exact Hx].
  - apply all_in_app. split; [assumption|]. apply all_in_cons; [reflexivity | assumption].
  - assumption.
  - assumption.
Qed.

Lemma norm_cr s :
  head s <> Some LF -> normalize_newlines (CR :: s) = CR :: normalize_newlines s.
Proof.
  intros H. unfold normalize_newlines, replace_all.
  change (atoms NewlinePattern) with [Cls (CChar CR) Opt; Cls (CChar LF) One].
  destruct s as [|y s]; [reflexivity|].
  assert (Hy : (y =? LF) = false).
  { apply N.eqb_neq. intros ->. apply H. reflexivity. }
  cbn [replace_go]. 
  assert (E : exec [Cls (CChar CR) Opt; Cls (CChar LF) One] (CR :: y :: s) = None).
  { cbn. rewrite Hy. reflexivity. }
  rewrite E. reflexivity.
Qed.

Lemma count_split sep s : length (split sep s) = S (count_occ N.eq_dec s sep).
Proof.
  induction s as [|x s IH]; [reflexivity|]. cbn [split count_occ].
  destruct (N.eq_dec x sep) as [-> | Hx].
  - rewrite N.eqb_refl. simpl. rewrite IH. reflexivity.
  - apply N.eqb_neq in Hx. rewrite Hx.
    destruct (split sep s) as [|l ls]; [discriminate | exact IH].
Qed.

Lemma count_normalize : forall n s,
  (length s <= n)%nat ->
  count_occ N.eq_dec (normalize_newlines s) LF = count_occ N.eq_dec s LF.
Proof.
  induction n as [|n IH]; intros s Hlen.
  - destruct s; [reflexivity | simpl in Hlen; lia].
  - destruct s as [|x s]; [reflexivity|]. simpl in Hlen.
    destruct (N.eq_dec x LF) as [-> | Hlf].
    + rewrite norm_lf. cbn [count_occ]. destruct (N.eq_dec LF LF); [|congruence].
      rewrite IH by lia. reflexivity.
    + destruct (N.eq_dec x CR) as [-> | Hcr].
      * destruct s as [|y s].
        { reflexivity. }
        destruct (N.eq_dec y LF) as [-> | Hy].
        { rewrite norm_crlf. simpl in Hlen. cbn [count_occ].
          destruct (N.eq_dec CR LF); [discriminate|].
          destruct (N.eq_dec LF LF); [|congruence].
          rewrite IH by lia. reflexivity. }
        rewrite norm_cr by (simpl; congruence). cbn [count_occ].
        destruct (N.eq_dec CR LF); [discriminate|].
        rewrite IH by (simpl in Hlen |- *; lia). reflexivity.
      * rewrite norm_char by assumption. cbn [count_occ].
        destruct (N.eq_dec x LF); [congruence|].
        rewrite IH by lia. reflexivity.
Qed.

(** X8. [loadProperties] keeps one entry for every line of the file: the
    entries in memory are one more than the line feeds of the file, a
    carriage return before a line feed making no line of its own. *)
Theorem loadProperties_lines (fs : FS) (this : Properties.t) (content : jsstring) :
  fs !! path this = Some content ->
  exists this1,
    loadProperties fs this = (this1, inr tt)
    /\ path this1 = path this
    /\ length (data this1) = S (count_occ N.eq_dec content LF).
Proof.
  intros Hfile. unfold loadProperties, readFile. rewrite Hfile.
  eexists. split; [reflexivity|]. split; [reflexivity|].
  cbn [data]. rewrite length_map, count_split.
  rewrite (count_normalize (length content)) by lia. reflexivity.
Qed.

End PropertiesMore.

Section PropertiesMoreWitnesses.
Import JS Shared Properties.

Lemma setProperties_reload_witness :
  let file := str "server.properties" in
  exists this1 fs2 this2 ret,
    loadProperties {[ file := str "motd=hi" ]} (Properties.new file) = (this1, inr tt)
    /\ setProperties [LF] [{| name := str "motd"; value := str "ho" |}]
         {[ file := str "motd=hi" ]} this1 = (fs2, this2, ret)
    /\ loadProperties fs2 this2 = (this2, inr tt)
    /\ forall fs3, getProperties fs3 this2 = (this2, inr ret).
Proof.
  cbv zeta.
  apply (setProperties_reload [LF] _ _ (Properties.new (str "server.properties"))
           (str "motd=hi")).
  - left. reflexivity.
  - apply lookup_singleton_eq.
  - constructor; [|constructor]. split.
    + repeat constructor.
    + rewrite list_elem_of_In. vm_compute. intuition discriminate.
Defined.

Lemma render_line_moves_separator_witness :
  load_line (render_line (PObject {| name := str "motd"; value := str "a=b" |}))
  = PObject {| name := str "motd=a"; value := str "b" |}.
Proof.
  apply (render_line_moves_separator (str "motd") (str "a") (str "b")).
  - discriminate.
  - intros x [= <-]. split; [reflexivity | discriminate].
  - repeat constructor.
  - repeat constructor.
  - repeat constructor.
  - rewrite list_elem_of_In. vm_compute. intuition discriminate.
Defined.

Lemma loadProperties_lines_witness :
  let file := str "server.properties" in
  exists this1,
    loadProperties {[ file := [109; CR; LF; 110] ]} (Properties.new file) = (this1, inr tt)
    /\ path this1 = file
    /\ length (data this1) = 2%nat.
Proof.
  cbv zeta.
  apply (loadProperties_lines {[ str "server.properties" := [109; CR; LF; 110] ]}
           (Properties.new (str "server.properties")) [109; CR; LF; 110]).
  apply lookup_singleton_eq.
Defined.

End PropertiesMoreWitnesses.

(** * More about [Versions] *)

Section VersionsMore.
Import JS Shared Versions.

Lemma filter_none {A} (f : A -> bool) (l : list A) :
  (forall x, x ∈ l -> f x = false) -> List.filter f l = [].
Proof.
  induction l as [|x l IH]; intros H; simpl; [reflexivity|].
  rewrite (H x) by left. apply IH. intros y Hy. apply H. right. assumption.
Qed.

Lemma set_versions_same vd w :
  versions_ w = Some vd -> set_versions vd false w = w.
Proof. destruct w. simpl. intros ->. reflexivity. Qed.

(** With a record for every version of the manifest, [getVersionData]
    asks the upstream nothing. *)
Lemma getVersionData_hit respond settles m w vd :
  versions_ w = Some vd ->
  (forall info, info ∈ versions m -> is_Some (vd !! id info)) ->
  getVersionData respond settles m w = (w, inr vd).
Proof.
  intros Hv Hall. unfold getVersionData, cache_of. rewrite Hv.
  rewrite filter_none.
  - rewrite set_versions_same by assumption. reflexivity.
  - intros info Hin. apply bool_decide_eq_false.
    destruct (Hall info Hin) as [facts ->]. discriminate.
Qed.

(** What a view that resolves has read. *)
Lemma view_inr respond settles f field m w w' v :
  view respond settles f field m w = (w', inr v) ->
  exists vd,
    getVersionData respond settles m w = (w', inr vd)
    /\ (forall info, info ∈ versions m -> is_Some (vd !! id info))
    /\ v = {| latest :=
                {| latest_release := first_of release (List.filter (flag f vd) (versions m));
                   latest_snapshot := first_of snapshot (List.filter (flag f vd) (versions m)) |};
              versions := List.filter (flag f vd) (versions m) |}.
Proof.
  unfold view.
  destruct (getVersionData respond settles m w) as [w1 [e|vd]] eqn:Hg; [discriminate|].
  destruct (filter_by f field vd (versions m)) as [e|vs] eqn:Hf; [discriminate|].
  intros [= <- <-]. apply filter_by_inr in Hf as [Hall ->].
  exists vd. auto.
Qed.

(** X9. Once a view has resolved, the views of the same manifest are
    answered from the record: whatever the upstream would answer now, no
    request is sent, the record and [versions.json] stay as they are, the
    same view resolves to the same value and the other views resolve. *)
Theorem views_answered_from_record (respond respond' : jsstring -> error + IVersion)
    (settles settles' : jsstring -> nat)
    (f : Facts -> bool) (field : string) (m : IVersionManifest) (w w1 : World)
    (v : IVersionManifest) :
  view respond settles f field m w = (w1, inr v) ->
  view respond' settles' f field m w1 = (w1, inr v)
  /\ forall g field', exists v', view respond' settles' g field' m w1 = (w1, inr v').
Proof.
  intros Hv. apply view_inr in Hv as (vd & Hg & Hall & ->).
  pose proof (getVersionData_stored respond settles m w w1 vd Hg) as Hs.
  split.
  - unfold view. rewrite (getVersionData_hit respond' settles' m w1 vd Hs Hall).
    rewrite (filter_by_total _ _ _ _ Hall). reflexivity.
  - intros g field'. unfold view.
    rewrite (getVersionData_hit respond' settles' m w1 vd Hs Hall).
    rewrite (filter_by_total _ _ _ _ Hall). eauto.
Qed.

(** The rejection that [first_rejected] finds is one of the list, and no
    rejection of the list comes before it. *)
Lemma first_rejected_some {A B} (t : A -> nat) (f : A -> error + B) (l : list A) t0 e0 :
  first_rejected (List.map (fun a => (t a, f a)) l) = Some (t0, e0) ->
  exists x, x ∈ l /\ t x = t0 /\ f x = inl e0
            /\ forall y e, y ∈ l -> f y = inl e -> (t0 <= t y)%nat.
Proof.
  revert t0 e0. induction l as [|a l IH]; intros t0 e0; cbn [List.map first_rejected];
    [discriminate|].
  destruct (f a) as [e|b] eqn:Hfa.
  - destruct (first_rejected (List.map (fun a => (t a, f a)) l)) as [[t' e']|] eqn:Hl.
    + destruct (IH t' e' eq_refl) as (x & Hx & Ht & Hf & Hmin).
      destruct (t' <? t a)%nat eqn:Hlt; intros [= <- <-].
      * apply Nat.ltb_lt in Hlt. exists x. split; [right; assumption|].
        split; [assumption|]. split; [assumption|].
        intros y e1 Hy Hfy. apply elem_of_cons in Hy as [-> | Hy]; [lia | eauto].
      * apply Nat.ltb_ge in Hlt. exists a. split; [left|]. split; [reflexivity|].
        split; [assumption|].
        intros y e1 Hy Hfy. apply elem_of_cons in Hy as [-> | Hy]; [lia|].
        specialize (Hmin y e1 Hy Hfy). lia.
    + intros [= <- <-]. exists a. split; [left|]. split; [reflexivity|].
      split; [assumption|].
      intros y e1 Hy Hfy. apply elem_of_cons in Hy as [-> | Hy]; [lia|]. exfalso.
      clear -Hl Hy Hfy. induction l as [|z l IH]; [inversion Hy|].
      cbn [List.map first_rejected] in Hl.
      destruct (f z) as [ez|bz] eqn:Hfz.
      * destruct (first_rejected (List.map (fun a => (t a, f a)) l)) as [[t' e']|];
          [destruct (t' <? t z)%nat|]; discriminate.
      * apply elem_of_cons in Hy as [-> | Hy]; [congruence | auto].
  - intros H. destruct (IH t0 e0 H) as (x & Hx & Ht & Hf & Hmin).
    exists x. split; [right; assumption|]. split; [assumption|]. split; [assumption|].
    intros y e1 Hy Hfy. apply elem_of_cons in Hy as [-> | Hy]; [congruence | eauto].
Qed.

Lemma first_rejected_none {A B} (t : A -> nat) (f : A -> error + B) (l : list A) x e :
  first_rejected (List.map (fun a => (t a, f a)) l) = None -> x ∈ l -> f x <> inl e.
Proof.
  induction l as [|a l IH]; intros Hl Hx; [inversion Hx|].
  cbn [List.map first_rejected] in Hl. destruct (f a) as [ea|b] eqn:Hfa.
  - destruct (first_rejected (List.map (fun a => (t a, f a)) l)) as [[t' e']|];
      [destruct (t' <? t a)%nat|]; discriminate.
  - apply elem_of_cons in Hx as [-> | Hx]; [congruence | auto].
Qed.

(** [Promise.all] over requests of which one is rejected. *)
Lemma all_rejects {A B} (t : A -> nat) (f : A -> error + B) (l : list A) x e :
  x ∈ l -> f x = inl e ->
  exists x' e',
    all (List.map (fun a => (t a, f a)) l) = inl e' /\ x' ∈ l /\ f x' = inl e'
    /\ forall y e'', y ∈ l -> f y = inl e'' -> (t x' <= t y)%nat.
Proof.
  intros Hin Hx. unfold all.
  destruct (first_rejected (List.map (fun a => (t a, f a)) l)) as [[t0 e0]|] eqn:Hl.
  - destruct (first_rejected_some t f l t0 e0 Hl) as (x' & Hx' & Ht & Hf & Hmin).
    exists x', e0. rewrite Ht. auto.
  - exfalso. exact (first_rejected_none t f l x e Hl Hin Hx).
Qed.

(** X10. When the request of one version that has no record is rejected,
    [getVersionData] and the three views are rejected with the error of
    such a request, one that no other rejected request came before; the
    requests of all versions without record have been sent, yet no answer
    is kept: the record is the one from before and [versions.json] is not
    written. *)
Theorem getVersionData_rejection (respond : jsstring -> error + IVersion)
    (settles : jsstring -> nat)
    (m : IVersionManifest) (w : World) (info : IVersionInfo) (e : error) :
  info ∈ versions m -> cache_of w !! id info = None -> respond (url info) = inl e ->
  exists w' e',
    getVersionData respond settles m w = (w', inl e')
    /\ (exists info', info' ∈ versions m /\ cache_of w !! id info' = None
                      /\ respond (url info') = inl e'
                      /\ forall other e'', other ∈ versions m ->
                           cache_of w !! id other = None ->
                           respond (url other) = inl e'' ->
                           (settles (url info') <= settles (url other))%nat)
    /\ versions_ w' = Some (cache_of w)
    /\ versions_json w' = versions_json w
    /\ requests w' = requests w
         ++ List.map url
              (List.filter (fun i => bool_decide (cache_of w !! id i = None)) (versions m))
    /\ forall f field, view respond settles f field m w = (w', inl e').
Proof.
  intros Hin Hc Hr.
  set (missing := List.filter (fun i => bool_decide (cache_of w !! id i = None)) (versions m)).
  assert (Hmiss : forall i, i ∈ missing <-> i ∈ versions m /\ cache_of w !! id i = None).
  { intros i. unfold missing. rewrite !list_elem_of_In, filter_In.
    rewrite bool_decide_eq_true. reflexivity. }
  destruct (all_rejects (fun i => settles (url i)) (fun i => respond (url i)) missing info e)
    as (info' & e' & Ha & Hin' & Hr' & Hmin).
  { apply Hmiss. auto. }
  { assumption. }
  assert (Hg : getVersionData respond settles m w
               = (log_requests (List.map url missing) (set_versions (cache_of w) false w),
                  inl e')).
  { unfold getVersionData. fold missing.
    destruct missing as [|i0 rest] eqn:E; [inversion Hin'|]. rewrite Ha. reflexivity. }
  do 2 eexists. split; [exact Hg|]. split; [|split; [|split; [|split]]].
  - exists info'. apply Hmiss in Hin' as [H1 H2].
    split; [assumption|]. split; [assumption|]. split; [assumption|].
    intros other e2 Ho Hco Hro. apply (Hmin other e2); [|assumption].
    apply Hmiss. auto.
  - reflexivity.
  - reflexivity.
  - reflexivity.
  - intros f field. unfold view. rewrite Hg. reflexivity.
Qed.

Variable respond : jsstring -> error + IVersion.
Variable settles : jsstring -> nat.

Lemma first_of_listed t vs :
  first_of t vs = [] \/ exists x, x ∈ vs /\ type x = t /\ first_of t vs = id x.
Proof.
  rewrite first_of_find. destruct (List.find _ vs) as [x|] eqn:Hf; [|left; reflexivity].
  apply find_some in Hf as [Hin Ht]. apply bool_decide_eq_true in Ht.
  right. exists x. split; [apply list_elem_of_In; assumption | auto].
Qed.

(** X11. Whenever [serverMappings] or [clientMappings] resolves, the
    view lists, in the order of the manifest, the versions whose record
    has the flag of the view, and each of [latest.release] and
    [latest.snapshot] is the id of the first listed version of that type,
    or the empty string when none is listed. *)
Theorem mappings_views (m : IVersionManifest) (w w' : World) (v : IVersionManifest) :
  let listed f vd :=
    versions_ w' = Some vd
    /\ versions v = List.filter (flag f vd) (versions m)
    /\ latest_release (latest v) =
         match List.find (fun x => bool_decide (type x = release)) (versions v) with
         | Some x => id x
         | None => []
         end
    /\ latest_snapshot (latest v) =
         match List.find (fun x => bool_decide (type x = snapshot)) (versions v) with
         | Some x => id x
         | None => []
         end in
  (serverMappings respond settles m w = (w', inr v) -> exists vd, listed hasServerMappings vd)
  /\ (clientMappings respond settles m w = (w', inr v) -> exists vd, listed hasClientMappings vd).
Proof.
  cbv zeta. split; intros Hv; apply view_inr in Hv as (vd & Hg & _ & ->);
    exists vd; (split; [eapply getVersionData_stored; eassumption|]);
    cbn [versions latest latest_release latest_snapshot];
    rewrite <- !first_of_find; auto.
Qed.

End VersionsMore.

Section VersionsMoreWitnesses.
Import JS Shared Versions Host.

Lemma views_answered_from_record_witness :
  exists w1 v,
    servers upstream in_turn two_versions init = (w1, inr v)
    /\ servers (fun _ => inl (Error [])) in_turn two_versions w1 = (w1, inr v).
Proof.
  do 2 eexists. split; [reflexivity|].
  apply (views_answered_from_record upstream (fun _ => inl (Error [])) in_turn in_turn
           hasServer "hasServer" two_versions init).
  reflexivity.
Defined.

(** Both requests are rejected, the one of [1.19] first in time: its
    error is the one reported, although [1.20] is listed first. *)
Lemma getVersionData_rejection_witness :
  let down (u : jsstring) : error + IVersion := inl (Error u) in
  let settles (u : jsstring) : nat :=
    if bool_decide (u = url (info_of "1.20")) then 2%nat else 1%nat in
  exists w',
    getVersionData down settles two_versions init
    = (w', inl (Error (url (info_of "1.19"))))
    /\ versions_json w' = None.
Proof.
  cbv zeta.
  destruct (getVersionData_rejection (fun u => inl (Error u))
              (fun u => if bool_decide (u = url (info_of "1.20")) then 2%nat else 1%nat)
              two_versions init (info_of "1.20") (Error (url (info_of "1.20"))))
    as (w' & e' & Hg & (info' & Hin & _ & Hr & Hmin) & _ & Hj & _).
  - left.
  - reflexivity.
  - reflexivity.
  - exists w'. split; [|exact Hj]. rewrite Hg. f_equal. f_equal.
    injection Hr as <-.
    apply elem_of_cons in Hin as [-> | Hin].
    + exfalso.
      assert (H : (2 <= 1)%nat);
        [|lia].
      apply (Hmin (info_of "1.19") (Error (url (info_of "1.19"))));
        [right; left | reflexivity | reflexivity].
    + apply list_elem_of_singleton in Hin as ->. reflexivity.
Defined.

Lemma mappings_views_witness :
  exists w' v vd,
    serverMappings upstream in_turn two_versions init = (w', inr v)
    /\ versions_ w' = Some vd
    /\ versions v = List.filter (flag hasServerMappings vd) (versions two_versions).
Proof.
  destruct (proj1 (mappings_views upstream in_turn two_versions init _ _) eq_refl)
    as (vd & H1 & H2 & _).
  do 2 eexists. exists vd. split; [reflexivity|]. split; [exact H1 | exact H2].
Defined.

End VersionsMoreWitnesses.

(** * More about [Server] *)

Section Steps.
Import JS Shared Server.

Variable clock : nat -> jsstring.
Variable path_join : jsstring -> jsstring -> jsstring.
Variable EOL : jsstring.

(** A relation between the server before and after, that the steps of
    the methods keep. *)
Variable R : Server.t -> Server.t -> Prop.
Hypothesis R_refl : forall sv, R sv sv.
Hypothesis R_trans : forall sv1 sv2 sv3, R sv1 sv2 -> R sv2 sv3 -> R sv1 sv3.
Hypothesis R_log : forall ty m prefix sv, R sv (write_log clock ty m prefix sv).
Hypothesis R_starting : forall sv, R sv (set_state STARTING sv).
Hypothesis R_crashed : forall sv, R sv (set_state CRASHED sv).
Hypothesis R_download : forall file cur tot sv, R sv (emit (EDownload file cur tot) sv).
Hypothesis R_version : forall v sv, R sv (with_version v sv).
Hypothesis R_process : forall p sv, R sv (with_process p sv).

Lemma bind_rel {A B} (c : M A) (k : A -> M B) sv :
  (forall sv, R sv (fst (c sv))) -> (forall a sv, R sv (fst (k a sv))) ->
  R sv (fst (bind c k sv)).
Proof.
  intros Hc Hk. unfold bind. specialize (Hc sv).
  destruct (c sv) as [sv1 [e|a]]; [exact Hc|].
  eapply R_trans; [exact Hc | apply Hk].
Qed.

Lemma rethrowing_rel {A} (c : M A) (h : error -> t -> t) sv :
  (forall sv, R sv (fst (c sv))) -> (forall e sv, R sv (h e sv)) ->
  R sv (fst (rethrowing c h sv)).
Proof.
  intros Hc Hh. unfold rethrowing. specialize (Hc sv).
  destruct (c sv) as [sv1 [e|a]]; [|exact Hc].
  eapply R_trans; [exact Hc | apply Hh].
Qed.

Lemma when_rel b (c : M unit) sv :
  (forall sv, R sv (fst (c sv))) -> R sv (fst (when b c sv)).
Proof. intros Hc. destruct b; [apply Hc | apply R_refl]. Qed.

Lemma effect_rel (f : t -> t) sv : (forall sv, R sv (f sv)) -> R sv (fst (effect f sv)).
Proof. intros Hf. apply Hf. Qed.

Lemma settle_rel o sv : R sv (fst (settle o sv)).
Proof. destruct o; apply R_refl. Qed.

Lemma write_stdin_rel chunk sv : R sv (write_stdin chunk sv).
Proof. unfold write_stdin. destruct (process sv); [apply R_process | apply R_refl]. Qed.

Lemma downloads_rel file progress : forall sv,
  R sv (fold_left (fun sv '(cur, tot) => emit (EDownload file cur tot) sv) progress sv).
Proof.
  induction progress as [|[cur tot] progress IH]; intros sv; [apply R_refl|].
  cbn [fold_left]. eapply R_trans; [apply R_download | apply IH].
Qed.

Lemma start_rel io sv : R sv (fst (start clock path_join io sv)).
Proof.
  unfold start. apply rethrowing_rel; [|intros; apply R_log].
  intros this. cbv beta.
  apply bind_rel; [intros; apply when_rel; intros; apply R_refl|]. intros _ ?.
  apply bind_rel; [intros; apply effect_rel, R_starting|]. intros _ ?.
  apply bind_rel; [intros; apply effect_rel, R_log|]. intros _ ?.
  apply bind_rel.
  { intros. apply when_rel. intros.
    apply bind_rel; [intros; apply effect_rel, R_log|].
    intros. apply settle_rel. }
  intros _ ?. apply bind_rel.
  { intros svv. cbv beta. destruct (validateVersion_ io (version svv)) as [v r].
    apply R_version. }
  intros isCorrectVersion ?. apply bind_rel.
  { intros. apply when_rel. intros.
    apply bind_rel; [intros; apply effect_rel, R_log|].
    intros _ ?. apply rethrowing_rel; [|intros; apply R_crashed].
    intros svb. cbv beta. destruct (buildJar_ io (version svb)) as [[v progress] r].
    eapply R_trans; [|apply settle_rel].
    eapply R_trans; [apply R_version | apply downloads_rel]. }
  intros _ ?. apply bind_rel; [intros; apply effect_rel, R_log|].
  intros _ ?. apply bind_rel; [intros; apply R_refl|].
  intros p ?. apply effect_rel. intros. apply R_process.
Qed.

Lemma execute_rel command sv : R sv (fst (execute clock EOL command sv)).
Proof.
  unfold execute. apply rethrowing_rel; [|intros; apply R_log].
  intros this. cbv beta.
  apply bind_rel; [intros; apply when_rel; intros; apply R_refl|]. intros _ ?.
  apply bind_rel; [intros; apply effect_rel, R_log|]. intros _ ?.
  apply bind_rel; [intros; apply effect_rel, write_stdin_rel|]. intros _ ?.
  apply effect_rel, write_stdin_rel.
Qed.

Lemma stop_rel sv : R sv (fst (stop clock EOL sv)).
Proof.
  unfold stop. apply rethrowing_rel; [|intros; apply R_log].
  intros this. cbv beta.
  apply bind_rel; [intros; apply when_rel; intros; apply R_refl|]. intros _ ?.
  apply bind_rel; [intros; apply effect_rel, R_log|]. intros _ ?.
  apply bind_rel; [intros; apply effect_rel, write_stdin_rel|]. intros _ ?.
  apply effect_rel, write_stdin_rel.
Qed.

End Steps.

Section SessionFacts.
Import JS Shared Server Session.

Variable clock : nat -> jsstring.
Variable path_join : jsstring -> jsstring -> jsstring.
Variable EOL : jsstring.

Local Abbreviation grows sv sv' := (exists evs, follows evs sv sv').

Lemma announced_app evs1 evs2 s :
  announced (evs1 ++ evs2) s = announced evs2 (announced evs1 s).
Proof. apply fold_left_app. Qed.

Lemma messages_in_app evs1 evs2 :
  messages_in (evs1 ++ evs2) = messages_in evs1 ++ messages_in evs2.
Proof. apply flat_map_app. Qed.

Lemma follows_trans evs1 evs2 sv1 sv2 sv3 :
  follows evs1 sv1 sv2 -> follows evs2 sv2 sv3 -> follows (evs1 ++ evs2) sv1 sv3.
Proof.
  intros (E1 & L1 & S1) (E2 & L2 & S2). split; [|split].
  - rewrite E2, E1, app_assoc. reflexivity.
  - rewrite L2, L1, messages_in_app, app_assoc. reflexivity.
  - rewrite S2, S1, announced_app. reflexivity.
Qed.

Lemma grows_trans sv1 sv2 sv3 : grows sv1 sv2 -> grows sv2 sv3 -> grows sv1 sv3.
Proof. intros [evs1 H1] [evs2 H2]. eexists. eapply follows_trans; eassumption. Qed.

Lemma grows_same sv sv' :
  emitted sv' = emitted sv -> logs sv' = logs sv -> state sv' = state sv -> grows sv sv'.
Proof.
  intros E L S. exists []. unfold follows. simpl. rewrite !app_nil_r. auto.
Qed.

Lemma grows_refl sv : grows sv sv.
Proof. apply grows_same; reflexivity. Qed.

Lemma grows_write_log ty m prefix sv : grows sv (write_log clock ty m prefix sv).
Proof.
  exists [EMessage {| type := ty; content := stamp clock prefix sv m |}].
  split; [|split]; reflexivity.
Qed.

Lemma grows_set_state s sv : grows sv (set_state s sv).
Proof. exists [EStateUpdate s]. split; [|split]; try reflexivity. simpl. symmetry. apply app_nil_r. Qed.

Lemma grows_emit_eula sv : grows sv (emit EEula sv).
Proof. exists [EEula]. split; [|split]; try reflexivity. simpl. symmetry. apply app_nil_r. Qed.

Lemma grows_emit_download file cur tot sv : grows sv (emit (EDownload file cur tot) sv).
Proof.
  exists [EDownload file cur tot]. split; [|split]; try reflexivity.
  simpl. symmetry. apply app_nil_r.
Qed.

Lemma grows_with_loading n sv : grows sv (with_loading n sv).
Proof. apply grows_same; reflexivity. Qed.

Lemma grows_with_process p sv : grows sv (with_process p sv).
Proof. apply grows_same; reflexivity. Qed.

Lemma grows_with_version v sv : grows sv (with_version v sv).
Proof. apply grows_same; reflexivity. Qed.

Lemma grows_with_properties p sv : grows sv (with_properties p sv).
Proof. apply grows_same; reflexivity. Qed.

Lemma grows_write_stdin chunk sv : grows sv (write_stdin chunk sv).
Proof. unfold write_stdin. destruct (process sv); [apply grows_with_process | apply grows_refl]. Qed.

Lemma start_grows io sv : grows sv (fst (start clock path_join io sv)).
Proof.
  apply (start_rel clock path_join (fun sv sv' => grows sv sv')).
  - apply grows_refl.
  - apply grows_trans.
  - apply grows_write_log.
  - intros. apply grows_set_state.
  - intros. apply grows_set_state.
  - apply grows_emit_download.
  - apply grows_with_version.
  - apply grows_with_process.
Qed.

Lemma execute_grows command sv : grows sv (fst (execute clock EOL command sv)).
Proof.
  apply (execute_rel clock EOL (fun sv sv' => grows sv sv')).
  - apply grows_refl.
  - apply grows_trans.
  - apply grows_write_log.
  - apply grows_with_process.
Qed.

Lemma stop_grows sv : grows sv (fst (stop clock EOL sv)).
Proof.
  apply (stop_rel clock EOL (fun sv sv' => grows sv sv')).
  - apply grows_refl.
  - apply grows_trans.
  - apply grows_write_log.
  - apply grows_with_process.
Qed.

Lemma on_message_grows message sv : grows sv (on_message clock message sv).
Proof.
  unfold on_message. cbv zeta.
  assert (H1 : grows sv (if test WarnPattern message then warn clock message false sv
                         else if test ErrorPattern message
                              then error_ clock message false sv
                              else log clock message false sv)).
  { destruct (test WarnPattern message); [apply grows_write_log|].
    destruct (test ErrorPattern message); apply grows_write_log. }
  revert H1. generalize (if test WarnPattern message then warn clock message false sv
                         else if test ErrorPattern message
                              then error_ clock message false sv
                              else log clock message false sv).
  intros sv1 H1. eapply grows_trans; [exact H1|].
  destruct (test DonePattern message).
  { eapply grows_trans; [|apply grows_with_loading].
    eapply grows_trans; [|apply grows_write_log].
    eapply grows_trans; [apply grows_write_log | apply grows_set_state]. }
  destruct (test StopPattern message).
  { eapply grows_trans; [apply grows_write_log | apply grows_set_state]. }
  destruct (test EulaPattern message); [|apply grows_refl].
  eapply grows_trans; [|apply grows_emit_eula].
  eapply grows_trans; [apply grows_write_log | apply grows_set_state].
Qed.

Lemma on_stdout_data_grows data sv : grows sv (on_stdout_data clock data sv).
Proof.
  unfold on_stdout_data. generalize (messages_of data). intros messages. revert sv.
  induction messages as [|message messages IH]; intros sv; [apply grows_refl|].
  cbn [fold_left]. eapply grows_trans; [apply on_message_grows | apply IH].
Qed.

Lemma on_properties_settled_grows fs sv : grows sv (on_properties_settled clock fs sv).
Proof.
  unfold on_properties_settled. cbv zeta.
  destruct (Properties.loadProperties fs _) as [p [e|u]];
    (eapply grows_trans; [|apply grows_write_log]);
    (eapply grows_trans; [apply grows_with_loading | apply grows_with_properties]).
Qed.

Lemma on_exit_grows code signal sv : grows sv (on_exit clock code signal sv).
Proof.
  unfold on_exit. cbv zeta. eapply grows_trans; [|apply grows_with_process].
  eapply grows_trans; [apply grows_set_state|].
  destruct code as [c|]; [destruct (bool_decide (c = 0%Z))|]; apply grows_write_log.
Qed.

Lemma on_error_grows err_message sv : grows sv (on_error clock err_message sv).
Proof.
  unfold on_error. cbv zeta.
  eapply grows_trans; [apply grows_write_log | apply grows_set_state].
Qed.

Lemma after_grows c sv sv' : after clock path_join EOL c sv = Some sv' -> grows sv sv'.
Proof.
  destruct c as [op| | | | |]; simpl after.
  - intros [= <-]. destruct op; simpl perform;
      [apply start_grows | apply execute_grows | apply stop_grows].
  - unfold quit. destruct (canStart sv); [intros [= <-]; apply grows_refl|].
    destruct (canStop sv); [|discriminate]. intros [= <-].
    eapply grows_trans; apply grows_write_stdin.
  - intros [= <-]. apply on_error_grows.
  - intros [= <-]. apply on_stdout_data_grows.
  - intros [= <-]. apply on_properties_settled_grows.
  - intros [= <-]. apply on_exit_grows.
Qed.

(** X12. The events tell what the server is. Over any calls of the
    methods and of the listeners, what was emitted is never taken back,
    every log that was added was emitted as a [message] and every
    [message] was logged, in that order, and the state is the state of
    the last [stateUpdate], or the state from before if there was none. *)
Theorem events_tell_the_server (calls : list call) (sv sv' : Server.t) :
  run clock path_join EOL calls sv = Some sv' ->
  exists evs,
    emitted sv' = emitted sv ++ evs
    /\ logs sv' = logs sv ++ messages_in evs
    /\ state sv' = announced evs (state sv).
Proof.
  revert sv. induction calls as [|c calls IH]; intros sv; simpl run.
  - intros [= <-]. apply grows_refl.
  - destruct (after clock path_join EOL c sv) as [sv1|] eqn:Hc; [|discriminate].
    intros Hr. eapply grows_trans; [eapply after_grows; eassumption | apply IH, Hr].
Qed.

End SessionFacts.

Section ServerMore.
Import JS Shared Server Session.

Variable clock : nat -> jsstring.
Variable path_join : jsstring -> jsstring -> jsstring.
Variable EOL : jsstring.

Lemma process_write_log ty m prefix sv : process (write_log clock ty m prefix sv) = process sv.
Proof. reflexivity. Qed.

Lemma process_write_stdin chunk sv :
  process (write_stdin chunk sv)
  = option_map (fun p => {| stdin := stdin p ++ [chunk] |}) (process sv).
Proof. unfold write_stdin. destruct (process sv) eqn:Hp; [reflexivity | exact Hp]. Qed.

Lemma process_two_chunks a b sv :
  process (write_stdin b (write_stdin a sv))
  = option_map (fun p => {| stdin := stdin p ++ [a; b] |}) (process sv).
Proof.
  rewrite !process_write_stdin. destruct (process sv) as [p|]; [|reflexivity].
  simpl. rewrite <- app_assoc. reflexivity.
Qed.

Lemma logs_write_stdin chunk sv : logs (write_stdin chunk sv) = logs sv.
Proof. unfold write_stdin. destruct (process sv); reflexivity. Qed.

Lemma emitted_write_stdin chunk sv : emitted (write_stdin chunk sv) = emitted sv.
Proof. unfold write_stdin. destruct (process sv); reflexivity. Qed.

(** X13. In the state [RUNNING], [execute(command)] writes the command
    and then the end of line to the child process, after what was written
    before; [stop()] writes what [execute('stop')] writes, and so does
    [quit()], which logs and emits nothing. Without a child process the
    three calls write nothing and resolve all the same. *)
Theorem stdin_writes (command : jsstring) (sv : Server.t) :
  state sv = RUNNING ->
  let written c p := {| stdin := stdin p ++ [c; EOL] |} in
  execute clock EOL command sv
  = (fst (execute clock EOL command sv), inr tt)
  /\ process (fst (execute clock EOL command sv)) = option_map (written command) (process sv)
  /\ process (fst (stop clock EOL sv)) = option_map (written (str "stop")) (process sv)
  /\ exists sv',
       quit EOL sv = Some sv'
       /\ process sv' = option_map (written (str "stop")) (process sv)
       /\ logs sv' = logs sv /\ emitted sv' = emitted sv.
Proof.
  intros Hs. cbv zeta.
  rewrite (execute_running clock EOL command sv Hs), (stop_running clock EOL sv Hs).
  cbn [fst]. split; [reflexivity|]. split; [|split].
  - rewrite process_two_chunks. unfold log. rewrite process_write_log. reflexivity.
  - rewrite process_two_chunks. unfold log. rewrite process_write_log. reflexivity.
  - unfold quit, canStart, canStop. rewrite Hs. eexists. split; [reflexivity|].
    split; [apply process_two_chunks|].
    rewrite !logs_write_stdin, !emitted_write_stdin. auto.
Qed.

Lemma stuck sv :
  state sv = STARTING ->
  (forall op, exists sv'',
      perform clock path_join EOL op sv = (sv'', inl (ServerStateError STARTING))
      /\ state sv'' = STARTING)
  /\ quit EOL sv = None.
Proof.
  intros Hs. split.
  - intros op. rewrite (refused clock path_join EOL op sv).
    + rewrite Hs. eexists. split; [reflexivity|]. exact Hs.
    + rewrite Hs. destruct op; reflexivity.
  - unfold quit, canStart, canStop. rewrite Hs. reflexivity.
Qed.

(** X14. When [mkdir] or [validateVersion] rejects, [start] rejects with
    that error and leaves the state [STARTING] and the process as it was;
    from then on [start], [execute] and [stop] are refused with the error
    of the state [STARTING] and leave it so, and [quit] does not
    return. *)
Theorem start_stays_starting (io : StartIO) (sv : Server.t) (e : error) :
  canStart sv = true ->
  (path_exists io = false /\ mkdir_ io = Some e)
  \/ ((path_exists io = true \/ mkdir_ io = None)
      /\ snd (validateVersion_ io (version sv)) = inl e) ->
  exists sv',
    start clock path_join io sv = (sv', inl e)
    /\ state sv' = STARTING
    /\ process sv' = process sv
    /\ (forall op, exists sv'',
          perform clock path_join EOL op sv' = (sv'', inl (ServerStateError STARTING))
          /\ state sv'' = STARTING)
    /\ quit EOL sv' = None.
Proof.
  intros Hc H.
  assert (Hstart : exists sv', start clock path_join io sv = (sv', inl e)
                     /\ state sv' = STARTING /\ process sv' = process sv).
  { unfold start, rethrowing, bind, when, settle, throw, effect, ret.
    rewrite Hc. cbn [negb]. cbv beta iota.
    destruct H as [[He Hm] | [Hd Hv]].
    - rewrite He, Hm. cbn [negb]. cbv beta iota.
      eexists. split; [reflexivity|]. split; reflexivity.
    - destruct (validateVersion_ io (version sv)) as [v r] eqn:Hvv.
      simpl in Hv. subst r.
      destruct (path_exists io); cbn [negb]; cbv beta iota.
      + change (version (log clock (str "Attempting to start server...") true
                           (set_state STARTING sv))) with (version sv).
        rewrite Hvv. eexists. split; [reflexivity|]. split; reflexivity.
      + destruct Hd as [Hd | Hd]; [discriminate|]. rewrite Hd. cbv beta iota.
        change (version (warn clock (str "Creating server directory...") true
                           (log clock (str "Attempting to start server...") true
                              (set_state STARTING sv)))) with (version sv).
        rewrite Hvv. eexists. split; [reflexivity|]. split; reflexivity. }
  destruct Hstart as (sv' & Hst & Hs & Hp). exists sv'.
  split; [exact Hst|]. split; [exact Hs|]. split; [exact Hp|]. apply stuck, Hs.
Qed.

Lemma downloads_emitted file progress : forall sv,
  let sv' := fold_left (fun sv '(cur, tot) => emit (EDownload file cur tot) sv) progress sv in
  emitted sv' = emitted sv ++ List.map (fun '(cur, tot) => EDownload file cur tot) progress
  /\ state sv' = state sv /\ process sv' = process sv /\ version sv' = version sv.
Proof.
  induction progress as [|[cur tot] progress IH]; intros sv; cbv zeta.
  - simpl. rewrite app_nil_r. auto.
  - cbn [fold_left List.map].
    destruct (IH (emit (EDownload file cur tot) sv)) as (E & S & P & V).
    rewrite E, S, P, V, emitted_emit, <- app_assoc. auto.
Qed.

(** X15. When the jar is not of the right version and [buildJar]
    rejects, [start] rejects with that error, the progress of the
    download has been emitted for the jar of the server, and the state is
    [CRASHED], in which [start] may be called again. *)
Theorem start_crashes_on_download (io : StartIO) (sv : Server.t)
    (v v' : option jsstring) (progress : list (N * N)) (e : error) :
  canStart sv = true ->
  path_exists io = true \/ mkdir_ io = None ->
  validateVersion_ io (version sv) = (v, inr false) ->
  buildJar_ io v = (v', progress, Some e) ->
  exists sv',
    start clock path_join io sv = (sv', inl e)
    /\ state sv' = CRASHED /\ canStart sv' = true
    /\ version sv' = v' /\ process sv' = process sv
    /\ forall cur tot, (cur, tot) ∈ progress ->
         EDownload (jar path_join sv) cur tot ∈ emitted sv'.
Proof.
  intros Hc Hd Hv Hb.
  set (sv1 := if path_exists io
              then log clock (str "Attempting to start server...") true
                     (set_state STARTING sv)
              else warn clock (str "Creating server directory...") true
                     (log clock (str "Attempting to start server...") true
                        (set_state STARTING sv))).
  set (sv2 := with_version v' (log clock (str "Downloading server jar...") true
                                 (with_version v sv1))).
  set (sv3 := fold_left (fun s '(cur, tot) => emit (EDownload (jar path_join sv) cur tot) s)
                progress sv2).
  assert (Hstart : start clock path_join io sv
                   = (error_ clock (message e) true (set_state CRASHED sv3), inl e)).
  { unfold start, rethrowing, bind, when, settle, throw, effect, ret.
    rewrite Hc. cbn [negb]. cbv beta iota. unfold sv3, sv2, sv1.
    destruct (path_exists io); cbn [negb]; cbv beta iota.
    - change (version (log clock (str "Attempting to start server...") true
                         (set_state STARTING sv))) with (version sv).
      rewrite Hv. cbn [negb]. cbv beta iota.
      change (version (log clock (str "Downloading server jar...") true
                (with_version v (log clock (str "Attempting to start server...") true
                                   (set_state STARTING sv))))) with v.
      rewrite Hb. reflexivity.
    - destruct Hd as [Hd | Hd]; [discriminate|]. rewrite Hd. cbv beta iota.
      change (version (warn clock (str "Creating server directory...") true
                         (log clock (str "Attempting to start server...") true
                            (set_state STARTING sv)))) with (version sv).
      rewrite Hv. cbn [negb]. cbv beta iota.
      change (version (log clock (str "Downloading server jar...") true
                (with_version v
                   (warn clock (str "Creating server directory...") true
                      (log clock (str "Attempting to start server...") true
                         (set_state STARTING sv)))))) with v.
      rewrite Hb. reflexivity. }
  destruct (downloads_emitted (jar path_join sv) progress sv2) as (E & S & P & V).
  fold sv3 in E, S, P, V.
  eexists. split; [exact Hstart|]. split; [reflexivity|]. split; [reflexivity|].
  split; [|split].
  - change (version sv3 = v'). rewrite V. reflexivity.
  - change (process sv3 = process sv). rewrite P. unfold sv2, sv1.
    destruct (path_exists io); reflexivity.
  - intros cur tot Hin. unfold error_.
    rewrite emitted_write_log, emitted_set_state, E.
    rewrite !elem_of_app. left. left. right.
    apply list_elem_of_In, in_map_iff. exists (cur, tot).
    split; [reflexivity | apply list_elem_of_In; assumption].
Qed.

End ServerMore.

Section Transitions.
Import JS Shared Server Session.

Variable clock : nat -> jsstring.
Variable path_join : jsstring -> jsstring -> jsstring.
Variable EOL : jsstring.

Lemma on_message_state message sv :
  state (on_message clock message sv)
  = if test DonePattern message then RUNNING
    else if test StopPattern message then STOPPING
    else if test EulaPattern message then STOPPING
    else state sv.
Proof.
  unfold on_message. cbv zeta.
  destruct (test DonePattern message); [reflexivity|].
  destruct (test StopPattern message); [reflexivity|].
  destruct (test EulaPattern message); [reflexivity|].
  destruct (test WarnPattern message); [reflexivity|].
  destruct (test ErrorPattern message); reflexivity.
Qed.

(** The state after the messages of a chunk is the state that the last
    message with a line of the three kinds gives. *)
Lemma on_messages_state messages : forall sv,
  let sv' := fold_left (fun sv message => on_message clock message sv) messages sv in
  state sv' = state sv
  \/ exists message,
       message ∈ messages
       /\ ((state sv' = RUNNING /\ test DonePattern message = true)
           \/ (state sv' = STOPPING /\ test DonePattern message = false
               /\ (test StopPattern message = true \/ test EulaPattern message = true))).
Proof.
  induction messages as [|m messages IH]; intros sv; cbv zeta; [left; reflexivity|].
  cbn [fold_left]. destruct (IH (on_message clock m sv)) as [H | (message & Hin & H)].
  - rewrite H, on_message_state.
    destruct (test DonePattern m) eqn:Hd.
    { right. exists m. split; [left|]. left. auto. }
    destruct (test StopPattern m) eqn:Hs.
    { right. exists m. split; [left|]. right. auto. }
    destruct (test EulaPattern m) eqn:He.
    { right. exists m. split; [left|]. right. auto. }
    left. reflexivity.
  - right. exists message. split; [right; assumption | exact H].
Qed.

Lemma start_state io sv :
  let sv' := fst (start clock path_join io sv) in
  state sv' = state sv \/ state sv' = STARTING \/ state sv' = CRASHED.
Proof.
  cbv zeta.
  apply (start_rel clock path_join
           (fun sv sv' => state sv' = state sv \/ state sv' = STARTING \/ state sv' = CRASHED)).
  - auto.
  - intros sv1 sv2 sv3 H1 [H2 | H2]; [rewrite H2; exact H1 | auto].
  - auto.
  - auto.
  - auto.
  - auto.
  - auto.
  - auto.
Qed.

Lemma on_exit_state code signal sv :
  state (on_exit clock code signal sv)
  = if bool_decide (code = Some 0%Z) then STOPPED else CRASHED.
Proof.
  unfold on_exit. cbv zeta.
  destruct code as [c|]; [destruct (bool_decide (c = 0%Z))|]; reflexivity.
Qed.

(** X16. The state changes in these ways only. It becomes [STARTING] by
    a call of [start] in a state in which it is legal; [RUNNING] by a
    message of the child process that matches [DonePattern]; [STOPPING]
    by a message that matches [StopPattern] or [EulaPattern] and not
    [DonePattern]; [STOPPED] by the exit of the child process with code
    0; [CRASHED] by another exit, by an error of the child process, or
    within a legal call of [start]. *)
Theorem state_changes (c : call) (sv sv' : Server.t) :
  after clock path_join EOL c sv = Some sv' ->
  state sv' <> state sv ->
  match state sv' with
  | STARTING => (exists io, c = Perform (OpStart io)) /\ canStart sv = true
  | RUNNING =>
      exists data message,
        c = OnStdoutData data /\ message ∈ messages_of data
        /\ test DonePattern message = true
  | STOPPING =>
      exists data message,
        c = OnStdoutData data /\ message ∈ messages_of data
        /\ test DonePattern message = false
        /\ (test StopPattern message = true \/ test EulaPattern message = true)
  | STOPPED => exists signal, c = OnExit (Some 0%Z) signal
  | CRASHED =>
      ((exists io, c = Perform (OpStart io)) /\ canStart sv = true)
      \/ (exists err_message, c = OnError err_message)
      \/ (exists code signal, c = OnExit code signal /\ code <> Some 0%Z)
  end.
Proof.
  destruct c as [op| |err_message|data|fs|code signal]; simpl after.
  - intros [= <-] Hne.
    destruct op as [io|command|]; simpl perform in *.
    + assert (Hc : canStart sv = true).
      { destruct (canStart sv) eqn:Hc; [reflexivity|]. exfalso. apply Hne.
        change (start clock path_join io) with (perform clock path_join EOL (OpStart io)).
        rewrite refused; [reflexivity|].
        unfold canStart in Hc. unfold legal. destruct (state sv); congruence. }
      destruct (start_state io sv) as [H | [H | H]]; [contradiction | |];
        rewrite H; eauto.
    + exfalso. apply Hne.
      apply (execute_rel clock EOL (fun sv sv' => state sv' = state sv)); try reflexivity.
      intros sv1 sv2 sv3 H1 H2. congruence.
    + exfalso. apply Hne.
      apply (stop_rel clock EOL (fun sv sv' => state sv' = state sv)); try reflexivity.
      intros sv1 sv2 sv3 H1 H2. congruence.
  - unfold quit. destruct (canStart sv); [intros [= <-] Hne; contradiction|].
    destruct (canStop sv); [|discriminate]. intros [= <-] Hne.
    exfalso. apply Hne. rewrite !state_write_stdin. reflexivity.
  - intros [= <-] _. change (state (on_error clock err_message sv)) with CRASHED.
    right. left. eauto.
  - intros [= <-] Hne. unfold on_stdout_data in *.
    destruct (on_messages_state (messages_of data) sv)
      as [H | (message & Hin & [[H Hd] | (H & Hd & Hs)])]; [contradiction | |];
      rewrite H; eauto 6.
  - intros [= <-] Hne. exfalso. apply Hne. unfold on_properties_settled. cbv zeta.
    destruct (Properties.loadProperties fs _) as [p [e|u]]; reflexivity.
  - intros [= <-] _. rewrite on_exit_state.
    destruct (bool_decide (code = Some 0%Z)) eqn:Hb.
    + apply bool_decide_eq_true in Hb as ->. eauto.
    + apply bool_decide_eq_false in Hb. right. right. eauto.
Qed.

End Transitions.

Section MessagesOf.
Import JS Shared Server Session.

Lemma word_match_sound w : forall s m r, word_match w s = Some (m, r) -> s = m ++ r.
Proof.
  induction w as [|c w IH]; intros s m r; simpl.
  - intros [= <- <-]. reflexivity.
  - destruct s as [|x s]; [discriminate|]. destruct (cls_mem c x); [|discriminate].
    destruct (word_match w s) as [[m0 r0]|] eqn:Hw; [|discriminate].
    intros [= <- <-]. rewrite (IH _ _ _ Hw). reflexivity.
Qed.

Lemma one_sound c k s segs rest :
  (forall s segs rest, k s = Some (segs, rest) -> s = concat segs ++ rest) ->
  one c k s = Some (segs, rest) -> s = concat segs ++ rest.
Proof.
  intros Hk. unfold one. destruct s as [|x s]; [discriminate|].
  destruct (cls_mem c x); [|discriminate].
  destruct (k s) as [[segs0 rest0]|] eqn:E; [|discriminate].
  simpl. intros [= <- <-]. rewrite (Hk _ _ _ E). reflexivity.
Qed.

Lemma push_nil_sound k s segs rest :
  (forall s segs rest, k s = Some (segs, rest) -> s = concat segs ++ rest) ->
  option_map (push []) (k s) = Some (segs, rest) -> s = concat segs ++ rest.
Proof.
  intros Hk. destruct (k s) as [[segs0 rest0]|] eqn:E; [|discriminate].
  simpl. intros [= <- <-]. apply (Hk _ _ _ E).
Qed.

Lemma alt_try_sound alts k s segs rest :
  (forall s segs rest, k s = Some (segs, rest) -> s = concat segs ++ rest) ->
  alt_try alts k s = Some (segs, rest) -> s = concat segs ++ rest.
Proof.
  intros Hk. induction alts as [|w alts IH]; simpl; [discriminate|].
  destruct (word_match w s) as [[m s']|] eqn:Hw.
  - destruct (k s') as [[segs0 rest0]|] eqn:E; simpl.
    + intros [= <- <-]. simpl. rewrite (word_match_sound _ _ _ _ Hw), (Hk _ _ _ E).
      apply app_assoc.
    + exact IH.
  - exact IH.
Qed.

(** A match is a prefix of the text: the texts of the atoms, then what
    is left. *)
Lemma exec_sound p : forall s segs rest,
  exec p s = Some (segs, rest) -> s = concat segs ++ rest.
Proof.
  induction p as [|a p IH]; intros s segs rest.
  - simpl. intros [= <- <-]. reflexivity.
  - destruct a as [c q|alts|c|].
    + destruct q.
      * rewrite exec_one. apply one_sound, IH.
      * cbn [exec]. destruct (one c (exec p) s) as [r|] eqn:E; simpl.
        { intros [= ->]. revert E. apply one_sound, IH. }
        apply push_nil_sound, IH.
      * rewrite exec_star. destruct (many c (exec p) s) as [[seg [segs0 rest0]]|] eqn:E;
          [|discriminate].
        apply many_sound in E as (rest1 & -> & _ & Hk & _).
        intros [= <- <-]. simpl. rewrite (IH _ _ _ Hk). apply app_assoc.
      * destruct s as [|x s]; [discriminate|]. rewrite exec_plus.
        destruct (cls_mem c x); [|discriminate].
        destruct (many c (exec p) s) as [[seg [segs0 rest0]]|] eqn:E; [|discriminate].
        apply many_sound in E as (rest1 & -> & _ & Hk & _).
        intros [= <- <-]. simpl. rewrite (IH _ _ _ Hk), app_assoc. reflexivity.
    + cbn [exec]. apply alt_try_sound, IH.
    + rewrite exec_not_ahead. destruct s as [|x s].
      * apply push_nil_sound, IH.
      * destruct (cls_mem c x); [discriminate|]. apply push_nil_sound, IH.
    + cbn [exec]. destruct s; [|discriminate]. apply push_nil_sound, IH.
Qed.

Lemma without_LF_app s1 s2 : without_LF (s1 ++ s2) = without_LF s1 ++ without_LF s2.
Proof. apply List.filter_app. Qed.

(** Putting a line feed before every match changes nothing else. *)
Lemma replace_without_LF p : forall n s skip,
  (length s <= n)%nat ->
  without_LF (replace_go p (fun m => LF :: concat m) skip s) = without_LF (drop skip s).
Proof.
  induction n as [|n IH]; intros s skip Hlen.
  - destruct s; [|simpl in Hlen; lia]. destruct skip; [|reflexivity].
    simpl. destruct (exec p []) as [[segs rest]|] eqn:E; [|reflexivity].
    apply exec_sound in E. symmetry in E. apply app_eq_nil in E as [-> _]. reflexivity.
  - destruct s as [|x s].
    { destruct skip; [|reflexivity].
      simpl. destruct (exec p []) as [[segs rest]|] eqn:E; [|reflexivity].
      apply exec_sound in E. symmetry in E. apply app_eq_nil in E as [-> _]. reflexivity. }
    simpl in Hlen. destruct skip as [|skip].
    + cbn [replace_go drop]. destruct (exec p (x :: s)) as [[segs rest]|] eqn:E.
      * apply exec_sound in E.
        change ((LF :: concat segs) ++ ?t) with ([LF] ++ concat segs ++ t).
        rewrite !without_LF_app. change (without_LF [LF]) with (@nil N). cbn [app].
        destruct (length (concat segs)) as [|m] eqn:Hm.
        { apply length_zero_iff_nil in Hm. rewrite Hm. cbn [without_LF List.filter app].
          change (List.filter (fun x => negb (x =? LF)) ?l) with (without_LF l).
          rewrite (IH s 0%nat) by lia. reflexivity. }
        rewrite (IH s m) by lia. rewrite <- without_LF_app. f_equal.
        assert (Hd : drop m s = rest).
        { change (drop m s) with (drop (S m) (x :: s)).
          rewrite E, <- Hm. apply drop_app_length. }
        rewrite Hd. symmetry. exact E.
      * cbn [without_LF List.filter].
        change (List.filter (fun x => negb (x =? LF)) ?l) with (without_LF l).
        rewrite (IH s 0%nat) by lia. reflexivity.
    + cbn [replace_go drop]. apply IH. lia.
Qed.

Lemma split_pieces t :
  concat (List.filter truthy (split LF t)) = without_LF t
  /\ Forall (fun l => LF ∉ l) (split LF t).
Proof.
  induction t as [|x t [IH1 IH2]].
  - split; [reflexivity|]. repeat constructor. intros H. inversion H.
  - cbn [split without_LF List.filter].
    change (List.filter (fun x => negb (x =? LF)) t) with (without_LF t).
    destruct (x =? LF) eqn:Hx.
    + cbn [negb List.filter truthy concat]. split; [exact IH1|].
      constructor; [intros H; inversion H | exact IH2].
    + cbn [negb]. destruct (split LF t) as [|l ls]; [inversion IH2; split; [|]|].
      * simpl. simpl in IH1. rewrite <- IH1. reflexivity.
      * repeat constructor. intros H. apply list_elem_of_singleton in H.
        apply N.eqb_neq in Hx. congruence.
      * inversion IH2 as [|? ? Hl Hls]; subst. split.
        { cbn [List.filter truthy concat]. rewrite <- IH1.
          destruct l; reflexivity. }
        constructor; [|assumption].
        intros H. apply elem_of_cons in H as [H | H]; [|contradiction].
        apply N.eqb_neq in Hx. congruence.
Qed.

(** X17. The listener of the output loses nothing but the line feeds:
    the messages that it takes from a chunk, one after the other, are the
    chunk without its line feeds; no message is empty and none has a line
    feed. *)
Theorem messages_of_lossless (data : jsstring) :
  concat (messages_of data) = without_LF data
  /\ Forall (fun message => message <> [] /\ LF ∉ message) (messages_of data).
Proof.
  unfold messages_of, replace_all.
  set (t := replace_go (atoms PrefixPattern) (fun m => LF :: concat m) 0 data).
  destruct (split_pieces t) as [H1 H2]. split.
  - rewrite H1. unfold t. rewrite (replace_without_LF _ (length data)) by lia.
    reflexivity.
  - rewrite Forall_forall. intros message Hin.
    apply list_elem_of_In, filter_In in Hin as [Hin Ht]. split.
    + intros ->. discriminate.
    + rewrite Forall_forall in H2. apply H2, list_elem_of_In. assumption.
Qed.

End MessagesOf.

Section AcceptEulaMore.
Import JS Shared Server.

Variable path_join : jsstring -> jsstring -> jsstring.

(** X18. When nothing in [eula.txt] matches the pattern, [acceptEula]
    writes the file as it was and still resolves to [accept]: the file
    then does not hold the answer. *)
Theorem acceptEula_without_line (accept : bool) (fs : FS) (sv : Server.t)
    (content : jsstring) :
  fs !! eula path_join sv = Some content ->
  search (atoms EulaLinePattern) content = None ->
  acceptEula path_join accept fs sv = (<[eula path_join sv := content]> fs, sv, inr accept).
Proof.
  intros Hfile Hno. unfold acceptEula, readFile, writeFile, replace_all.
  rewrite Hfile, (replace_none _ _ _ Hno). reflexivity.
Qed.

(** X19. The last answer is the one in the file: on a file with one
    line of the pattern, [acceptEula(a)] followed by [acceptEula(b)]
    leaves the file that [acceptEula(b)] alone leaves. *)
Theorem acceptEula_last_answer (a b : bool) (fs : FS) (sv : Server.t)
    (pre : jsstring) (b0 : bool) (post : jsstring) :
  fs !! eula path_join sv = Some (pre ++ eula_line b0 ++ post) ->
  search (lit_i "eula=") pre = None ->
  search (atoms EulaLinePattern) post = None ->
  let fs1 := fst (fst (acceptEula path_join a fs sv)) in
  acceptEula path_join b fs1 sv = acceptEula path_join b fs sv
  /\ fst (fst (acceptEula path_join b fs sv)) !! eula path_join sv
     = Some (pre ++ eula_line b ++ post).
Proof.
  intros Hfile Hpre Hpost.
  assert (H1 : forall c, acceptEula path_join c fs sv
               = (<[eula path_join sv := pre ++ eula_line c ++ post]> fs, sv, inr c)).
  { intros c. unfold acceptEula, readFile, writeFile. rewrite Hfile.
    rewrite (replace_eula_line c pre b0 post Hpre Hpost). reflexivity. }
  cbv zeta. rewrite (H1 a), (H1 b). cbn [fst].
  assert (H2 : acceptEula path_join b (<[eula path_join sv := pre ++ eula_line a ++ post]> fs) sv
               = (<[eula path_join sv := pre ++ eula_line b ++ post]> fs, sv, inr b)).
  { unfold acceptEula, readFile, writeFile. rewrite lookup_insert_eq.
    rewrite (replace_eula_line b pre a post Hpre Hpost), insert_insert_eq. reflexivity. }
  rewrite H2. split; [reflexivity|]. apply lookup_insert_eq.
Qed.

End AcceptEulaMore.

Section ConstructorFacts.
Import JS Shared Construction.

Variable path_join : jsstring -> jsstring -> jsstring.

Lemma assign_no_options d : assign d no_options = d.
Proof. destruct d. reflexivity. Qed.

(** X20. The options of one server are the defaults of the next. The
    first server made without options is the one of the default options,
    and it leaves them as they are; a server made with options writes
    them into the static [DefaultOptions], so that a server made after it
    without options has the memory sizes, the java path, the directory
    and the properties file of the one before. *)
Theorem constructor_keeps_options (version1 version2 : option jsstring)
    (options : PartialOptions) (defaults : IOptions) (DEFAULT_JAVA_PATH : jsstring) :
  constructor path_join version1 no_options (DefaultOptions DEFAULT_JAVA_PATH)
  = (Server.new path_join version1 DEFAULT_JAVA_PATH, DefaultOptions DEFAULT_JAVA_PATH)
  /\ (let server1 := fst (constructor path_join version1 options defaults) in
      let defaults1 := snd (constructor path_join version1 options defaults) in
      let server2 := fst (constructor path_join version2 no_options defaults1) in
      snd (constructor path_join version2 no_options defaults1) = defaults1
      /\ server2 = Server.with_version version2 server1
      /\ (forall p, path_ options = Some p -> Server.path server2 = p)).
Proof.
  split; [reflexivity|]. cbv zeta. unfold constructor. cbn [fst snd].
  rewrite assign_no_options.
  split; [reflexivity|]. split; [reflexivity|].
  intros p Hp. cbn [Server.path assign path]. rewrite Hp. reflexivity.
Qed.

End ConstructorFacts.

Section ServerMoreWitnesses.
Import JS Shared Server Session Host.

(** A start, the line that tells that the server is ready, a stop and
    the exit of the child process. *)
Lemma events_tell_the_server_witness :
  let io := {| path_exists := true; mkdir_ := None;
               validateVersion_ := fun v => (v, inr true);
               buildJar_ := fun v => (v, [], None);
               spawn_ := inr {| stdin := [] |} |} in
  let calls := [Perform (OpStart io); OnStdoutData done_line; Perform OpStop;
                OnExit (Some 0%Z) None] in
  let sv := Server.new slash None (str "java") in
  exists sv' evs,
    run noon slash [LF] calls sv = Some sv'
    /\ emitted sv' = emitted sv ++ evs
    /\ logs sv' = logs sv ++ messages_in evs
    /\ state sv' = announced evs (state sv).
Proof.
  cbv zeta.
  destruct (events_tell_the_server noon slash [LF]
              [Perform (OpStart {| path_exists := true; mkdir_ := None;
                                   validateVersion_ := fun v => (v, inr true);
                                   buildJar_ := fun v => (v, [], None);
                                   spawn_ := inr {| stdin := [] |} |});
               OnStdoutData done_line; Perform OpStop; OnExit (Some 0%Z) None]
              (Server.new slash None (str "java")) _ eq_refl) as (evs & H).
  eexists. exists evs. split; [reflexivity | exact H].
Defined.

Lemma stdin_writes_witness :
  let sv := with_process (Some {| stdin := [] |})
              (with_state RUNNING (Server.new slash None (str "java"))) in
  process (fst (stop noon [LF] sv)) = Some {| stdin := [str "stop"; [LF]] |}.
Proof.
  cbv zeta.
  destruct (stdin_writes noon [LF] (str "list")
              (with_process (Some {| stdin := [] |})
                 (with_state RUNNING (Server.new slash None (str "java")))) eq_refl)
    as (_ & _ & H & _).
  exact H.
Defined.

Lemma start_stays_starting_witness :
  let io := {| path_exists := false; mkdir_ := Some (Error (str "EACCES"));
               validateVersion_ := fun v => (v, inr true);
               buildJar_ := fun v => (v, [], None);
               spawn_ := inr {| stdin := [] |} |} in
  exists sv',
    start noon slash io (Server.new slash None (str "java"))
    = (sv', inl (Error (str "EACCES")))
    /\ state sv' = STARTING /\ quit [LF] sv' = None.
Proof.
  cbv zeta.
  destruct (start_stays_starting noon slash [LF]
              {| path_exists := false; mkdir_ := Some (Error (str "EACCES"));
                 validateVersion_ := fun v => (v, inr true);
                 buildJar_ := fun v => (v, [], None);
                 spawn_ := inr {| stdin := [] |} |}
              (Server.new slash None (str "java")) (Error (str "EACCES")))
    as (sv' & H1 & H2 & _ & _ & H3).
  - reflexivity.
  - left. split; reflexivity.
  - exists sv'. auto.
Defined.

Lemma start_crashes_on_download_witness :
  let io := {| path_exists := true; mkdir_ := None;
               validateVersion_ := fun v => (v, inr false);
               buildJar_ := fun v => (v, [(1, 2)], Some (Error (str "ECONNRESET")));
               spawn_ := inr {| stdin := [] |} |} in
  exists sv',
    start noon slash io (Server.new slash None (str "java"))
    = (sv', inl (Error (str "ECONNRESET")))
    /\ state sv' = CRASHED /\ canStart sv' = true.
Proof.
  cbv zeta.
  destruct (start_crashes_on_download noon slash
              {| path_exists := true; mkdir_ := None;
                 validateVersion_ := fun v => (v, inr false);
                 buildJar_ := fun v => (v, [(1, 2)], Some (Error (str "ECONNRESET")));
                 spawn_ := inr {| stdin := [] |} |}
              (Server.new slash None (str "java")) None None [(1, 2)]
              (Error (str "ECONNRESET")))
    as (sv' & H1 & H2 & H3 & _).
  - reflexivity.
  - left. reflexivity.
  - reflexivity.
  - reflexivity.
  - exists sv'. auto.
Defined.

(** The child process of a running server exits with code 0. *)
Lemma state_changes_witness :
  exists signal, OnExit (Some 0%Z) None = OnExit (Some 0%Z) signal.
Proof.
  pose proof (state_changes noon slash [LF] (OnExit (Some 0%Z) None)
                (with_state RUNNING (Server.new slash None (str "java")))
                (on_exit noon (Some 0%Z) None
                   (with_state RUNNING (Server.new slash None (str "java"))))
                eq_refl) as H.
  apply H. vm_compute. discriminate.
Defined.

(** A server in the directory [./a], then one without options. *)
Lemma constructor_keeps_options_witness :
  let options := {| Construction.minMemory_ := None; Construction.softMaxMemory_ := None;
                    Construction.maxMemory_ := None; Construction.javaPath_ := None;
                    Construction.path_ := Some (str "./a") |} in
  let defaults := Construction.DefaultOptions (str "java") in
  Server.path
    (fst (Construction.constructor slash None Construction.no_options
            (snd (Construction.constructor slash None options defaults))))
  = str "./a".
Proof.
  cbv zeta.
  destruct (constructor_keeps_options slash None None
              {| Construction.minMemory_ := None; Construction.softMaxMemory_ := None;
                 Construction.maxMemory_ := None; Construction.javaPath_ := None;
                 Construction.path_ := Some (str "./a") |}
              (Construction.DefaultOptions (str "java")) (str "java"))
    as (_ & _ & _ & H).
  apply H. reflexivity.
Defined.

Lemma acceptEula_without_line_witness :
  let sv := Server.new slash None (str "java") in
  let fs : FS := {[ eula slash sv := str "#no answer yet" ]} in
  acceptEula slash true fs sv
  = (<[eula slash sv := str "#no answer yet"]> fs, sv, inr true).
Proof.
  cbv zeta.
  apply (acceptEula_without_line slash true _ (Server.new slash None (str "java"))).
  - apply lookup_singleton_eq.
  - vm_compute. reflexivity.
Defined.

Lemma acceptEula_last_answer_witness :
  let sv := Server.new slash None (str "java") in
  let fs : FS := {[ eula slash sv := eula_line false ++ [LF] ]} in
  fst (fst (acceptEula slash false (fst (fst (acceptEula slash true fs sv))) sv))
    !! eula slash sv
  = Some (eula_line false ++ [LF]).
Proof.
  cbv zeta.
  destruct (acceptEula_last_answer slash true false
              {[ eula slash (Server.new slash None (str "java"))
                 := eula_line false ++ [LF] ]}
              (Server.new slash None (str "java")) [] false [LF]) as [H1 H2].
  - apply lookup_singleton_eq.
  - vm_compute. reflexivity.
  - vm_compute. reflexivity.
  - rewrite H1. exact H2.
Defined.

End ServerMoreWitnesses.
